(** * PoE2 trade scraper: the session pipeline of
    [DataScraping/poe2_api_scraper_full.py] and the basic scraper
    [poe2_api_scraper.py], embedded and verified.

    The script is sequential Python over three pieces of outside world: the
    trade API (HTTP), the output directory (JSON files) and the clock
    ([time.sleep], [datetime.now]).  The embedding threads an explicit
    [World] through every function and keeps a chronological [trace] of the
    requests sent, the sleeps taken and the files written, so that statements
    such as "no request is issued" or "exactly one file is written" are
    statements about that trace.

    Modelling choices, fixed here once:
    - Values are taken at the types the API and the script give them: an item
      record is a JSON object with an optional string [id] and an opaque
      remainder; a search body carries optional [total], [result] (a list of
      id strings) and [id] (the query token); a fetch body carries an optional
      [result] (a list of item records).  A body that [response.json()]
      cannot decode is [None].
    - A file of the output directory is either text that [json.load] rejects
      ([FCorrupt]) or one of the three documents the script writes.  The
      directory itself is taken to exist; files are keyed by their name
      inside it, in the order [os.listdir] reports them.
    - [print] is not modelled.
    - The server and the clock are an [Environment]: the answer to the [n]-th
      request of the run and the [n]-th reading of the clock.  Theorems
      quantify over every environment.
    - The two HTTP clients retry by calling themselves, inside their
      [try ... except Exception].  The source puts no bound on that, the
      interpreter does: once its stack has no room for a further nested
      call, the [RecursionError] is raised inside the [try], and the handler
      returns the empty result.  Every recursive function takes [fuel], the
      number of nested calls the stack still has room for (below 1000 with
      CPython's default limit).  A client without room returns the empty
      result without sending anything; [scrape_category] and
      [scrape_with_subdivision], which have no handler, answer [OutOfFuel]
      when they would have to call each other without room.  Theorems that
      promise a result show that enough room gives it.
    - Files are written as the script asks: a write that the operating
      system or the encoder refuses is not modelled.
    - The basic scraper has its own query shape and no exception handler; it
      lives in [Module Basic], whose computations return or raise.  Its
      pretty-printer only prints, and the menu under [__main__] of the
      session scraper only reads the keyboard and dispatches; neither is
      modelled. *)

From stdpp Require Import base list strings sets gmap pretty.
From Stdlib Require Import ZArith Lia Ascii.

Local Open Scope string_scope.
Local Open Scope list_scope.
Local Open Scope Z_scope.

(** ** Configuration *)

Definition ITEMS_PER_FETCH : nat := 10.
Definition DELAY_BETWEEN_FETCHES : Z := 5.
Definition DELAY_BETWEEN_SEARCHES : Z := 10.
(** [PROGRESS_FILE] is [OUTPUT_DIR/progress.json]; names are relative to
    [OUTPUT_DIR]. *)
Definition PROGRESS_FILE : string := "progress.json".

(** ** Data model *)

(** An item record as returned by the fetch endpoint: [item.get('id')] and
    the remaining fields. *)
Record ItemRecord := mkItem { item_id : option string; item_rest : string }.

(** The filter dictionary of a category:
    [{"filters": {"type_filters": {rarity}, "trade_filters": {price min/max},
                  "misc_filters": {"filters": {"ilvl": {min, max}}}}}]. *)
Record Filters := mkFilters {
  rarity : string;
  price_min : option Z;
  price_max : option Z;
  ilvl : option (Z * Z)
}.

Definition Category : Type := string * Filters.

(** Response bodies, decoded. *)
Record SearchBody := mkSearchBody {
  sb_total : option Z;
  sb_result : option (list string);
  sb_id : option string
}.

Record FetchBody := mkFetchBody { fb_result : option (list ItemRecord) }.

(** What [requests.post] / [requests.get] hand back: a response with its
    status code and its body ([None] when [response.json()] raises), or an
    exception raised by the transport. *)
Inductive response (B : Type) : Type :=
  | HttpResponse (status_code : Z) (json : option B)
  | RequestException.
Arguments HttpResponse {B} status_code json.
Arguments RequestException {B}.

(** The outside world the script cannot control: how the server answers the
    [n]-th request of the run, and what the [n]-th reading of the clock is. *)
Record Environment := mkEnv {
  search_api : nat -> Filters -> response SearchBody;
  fetch_api : nat -> list string -> string -> response FetchBody;
  clock : nat -> string
}.

(** Documents on disk. *)
Record ProgressDoc := mkProgress {
  completed_categories : list string;
  seen_item_ids : list string;
  last_updated : string
}.

(** A category file: the [metadata] fields and the [items].  [subdivided] is
    [true] when the metadata carries the key (the combined file of a
    subdivided category) and [false] when it does not. *)
Record CategoryDoc := mkCategoryDoc {
  category : string;
  total_items : nat;
  subdivided : bool;
  scrape_date : string;
  items : list ItemRecord
}.

Record MasterDoc := mkMasterDoc {
  total_unique_items : nat;
  master_scrape_date : string;
  master_items : list ItemRecord
}.

Inductive file : Type :=
  | FCorrupt
  | FProgress (d : ProgressDoc)
  | FCategory (d : CategoryDoc)
  | FMaster (d : MasterDoc).

(** Observable actions, in the order they happen. *)
Inductive event : Type :=
  | EvSearch (filters : Filters)
  | EvFetch (item_ids : list string) (query_id : string)
  | EvSleep (seconds : Z)
  | EvWrite (name : string) (content : file).

Record World := mkWorld {
  fs : list (string * file);
  requests : nat;
  clock_reads : nat;
  trace : list event
}.

(** ** Exceptions and the execution monad *)

Inductive exn : Type :=
  | JSONDecodeError
  | KeyError (key : string).

Inductive outcome (A : Type) : Type :=
  | Ret (a : A) (w : World)
  | Raise (e : exn) (w : World)
  | OutOfFuel.
Arguments Ret {A} a w.
Arguments Raise {A} e w.
Arguments OutOfFuel {A}.

Definition M (A : Type) : Type := World -> outcome A.

Definition ret {A} (a : A) : M A := fun w => Ret a w.

Definition bind {A B} (m : M A) (k : A -> M B) : M B :=
  fun w => match m w with
           | Ret a w' => k a w'
           | Raise e w' => Raise e w'
           | OutOfFuel => OutOfFuel
           end.

Declare Scope py_scope.
Delimit Scope py_scope with py.
Notation "x <~ m ;; k" := (bind m (fun x => k))
  (at level 20, m at level 99, k at level 200, only parsing) : py_scope.
Notation "' pat <~ m ;; k" := (bind m (fun pat => k))
  (at level 20, pat pattern, m at level 99, k at level 200, only parsing)
  : py_scope.
Notation "m ;;; k" := (bind m (fun _ => k))
  (at level 100, k at level 200, only parsing, right associativity)
  : py_scope.
Local Open Scope py_scope.

Definition raise {A} (e : exn) : M A := fun w => Raise e w.

(** ** The directory *)

Fixpoint fs_lookup (name : string) (d : list (string * file)) : option file :=
  match d with
  | [] => None
  | (n, f) :: d' => if String.eqb n name then Some f else fs_lookup name d'
  end.

(** [open(name, 'w')] followed by [json.dump]: replaces the file of that name
    or creates it. *)
Fixpoint fs_write (name : string) (f : file) (d : list (string * file))
  : list (string * file) :=
  match d with
  | [] => [(name, f)]
  | (n, g) :: d' =>
      if String.eqb n name then (n, f) :: d' else (n, g) :: fs_write name f d'
  end.

(** ** Primitive effects *)

Definition log (e : event) (w : World) : World :=
  mkWorld (fs w) (requests w) (clock_reads w) (trace w ++ [e]).

Definition sleep (seconds : Z) : M unit :=
  fun w => Ret tt (log (EvSleep seconds) w).

Definition write_file (name : string) (f : file) : M unit :=
  fun w => Ret tt (mkWorld (fs_write name f (fs w)) (requests w)
                     (clock_reads w) (trace w ++ [EvWrite name f])).

(** The world after one more reading of the clock. *)
Definition tick (w : World) : World :=
  mkWorld (fs w) (requests w) (S (clock_reads w)) (trace w).

Section Pipeline.

Variable env : Environment.

(** [datetime.now().isoformat()] *)
Definition now : M string :=
  fun w => Ret (clock env (clock_reads w)) (tick w).

(** [requests.post(SEARCH_API, json=query, headers=headers)] *)
Definition requests_post (filters : Filters) : M (response SearchBody) :=
  fun w => Ret (search_api env (requests w) filters)
             (mkWorld (fs w) (S (requests w)) (clock_reads w)
                (trace w ++ [EvSearch filters])).

(** [requests.get(url, headers=headers)], the url being built from the ids
    and the query token. *)
Definition requests_get (item_ids : list string) (query_id : string)
  : M (response FetchBody) :=
  fun w => Ret (fetch_api env (requests w) item_ids query_id)
             (mkWorld (fs w) (S (requests w)) (clock_reads w)
                (trace w ++ [EvFetch item_ids query_id])).

(** ** Progress store *)

Definition save_progress (completed : gset string) (seen : gset string)
  : M unit :=
  ts <~ now ;;
  write_file PROGRESS_FILE
    (FProgress (mkProgress (elements completed) (elements seen) ts)).

Definition load_progress : M (gset string * gset string) :=
  fun w =>
    match fs_lookup PROGRESS_FILE (fs w) with
    | Some FCorrupt => Raise JSONDecodeError w
    | Some (FProgress progress) =>
        Ret (list_to_set (completed_categories progress),
             list_to_set (seen_item_ids progress)) w
    | Some (FCategory _) | Some (FMaster _) =>
        Raise (KeyError "completed_categories") w
    | None => Ret (∅, ∅) w
    end.

(** ** Search client *)

(** The retry after a 429 is the call of the function by itself, inside the
    [try].  With no room left on the stack that call raises
    [RecursionError], and [except Exception] returns the empty result. *)
Fixpoint search_items_with_filters (fuel : nat) (filters_dict : Filters)
    (search_name : string) : M (list string * string * Z) :=
  match fuel with
  | O => ret ([], EmptyString, 0)
  | S fuel' =>
      response <~ requests_post filters_dict ;;
      match response with
      | HttpResponse status_code body =>
          if status_code =? 200 then
            match body with
            | Some data =>
                ret (default [] (sb_result data),
                     default EmptyString (sb_id data),
                     default 0 (sb_total data))
            | None => ret ([], EmptyString, 0)
            end
          else if status_code =? 429 then
            (sleep 60 ;;;
             search_items_with_filters fuel' filters_dict search_name)
          else ret ([], EmptyString, 0)
      | RequestException => ret ([], EmptyString, 0)
      end
  end.

(** ** Fetch client *)

(** The empty list is answered before the [try]; the retry and the stack
    are as in the search client. *)
Fixpoint fetch_items_batch (fuel : nat) (item_ids : list string)
    (query_id : string) : M (option FetchBody) :=
  match item_ids with
  | [] => ret None
  | _ =>
      match fuel with
      | O => ret None
      | S fuel' =>
          response <~ requests_get (take ITEMS_PER_FETCH item_ids) query_id ;;
          match response with
          | HttpResponse status_code body =>
              if status_code =? 200 then ret body
              else if status_code =? 429 then
                (sleep 60 ;;; fetch_items_batch fuel' item_ids query_id)
              else ret None
          | RequestException => ret None
          end
      end
  end.

(** ** Category pipeline *)

(** [l[start:stop]] for non-negative indices. *)
Definition py_slice {A} (l : list A) (start stop : nat) : list A :=
  take (stop - start) (drop start l).

(** [if batch_data and batch_data.get('result'): all_items.extend(...)] *)
Definition extend_with_batch (all_items : list ItemRecord)
    (batch_data : option FetchBody) : list ItemRecord :=
  match batch_data with
  | Some data =>
      match fb_result data with
      | Some (item :: more) => all_items ++ item :: more
      | _ => all_items
      end
  | None => all_items
  end.

(** The body of [for batch_num in range(num_batches)], iterated over the
    remaining values of [batch_num]. *)
Fixpoint fetch_loop (fuel : nat) (item_ids : list string) (query_id : string)
    (num_batches : nat) (batch_nums : list nat) (all_items : list ItemRecord)
  : M (list ItemRecord) :=
  match batch_nums with
  | [] => ret all_items
  | batch_num :: batch_nums' =>
      let start_idx := (batch_num * ITEMS_PER_FETCH)%nat in
      let end_idx := Nat.min (start_idx + ITEMS_PER_FETCH) (length item_ids) in
      let batch_ids := py_slice item_ids start_idx end_idx in
      batch_data <~ fetch_items_batch fuel batch_ids query_id ;;
      let all_items' := extend_with_batch all_items batch_data in
      (if (batch_num <? num_batches - 1)%nat
       then sleep DELAY_BETWEEN_FETCHES else ret tt) ;;;
      fetch_loop fuel item_ids query_id num_batches batch_nums' all_items'
  end.

(** The FETCH block of [scrape_category]. *)
Definition fetch_all (fuel : nat) (item_ids : list string) (query_id : string)
  : M (list ItemRecord) :=
  let num_batches :=
    ((length item_ids + ITEMS_PER_FETCH - 1) / ITEMS_PER_FETCH)%nat in
  fetch_loop fuel item_ids query_id num_batches (seq 0 num_batches) [].

(** [s.replace(old, new)] for a one-character [old]. *)
Fixpoint str_replace (old : Ascii.ascii) (new : string) (s : string) : string :=
  match s with
  | EmptyString => EmptyString
  | String c s' =>
      if Ascii.eqb c old then new +:+ str_replace old new s'
      else String c (str_replace old new s')
  end.

Definition safe_name (category_name : string) : string :=
  str_replace ":"%char EmptyString
    (str_replace "/"%char "-"
       (str_replace "|"%char "-"
          (str_replace " "%char "_" category_name))).

(** The SAVE block of [scrape_category]. *)
Definition save_category (category_name : string)
    (all_items : list ItemRecord) : M unit :=
  match all_items with
  | [] => ret tt
  | _ =>
      let filename := safe_name category_name +:+ ".json" in
      ts <~ now ;;
      write_file filename
        (FCategory (mkCategoryDoc category_name (length all_items) false ts
                      all_items))
  end.

Definition level_ranges : list (Z * Z) :=
  [(1, 20); (21, 40); (41, 50); (51, 60); (61, 65);
   (66, 70); (71, 75); (76, 80); (81, 85); (86, 100)].

(** The deep copy of [filters] with
    [["filters"]["misc_filters"]["filters"]["ilvl"]] set. *)
Definition with_ilvl (filters : Filters) (min_ilvl max_ilvl : Z) : Filters :=
  mkFilters (rarity filters) (price_min filters) (price_max filters)
    (Some (min_ilvl, max_ilvl)).

Definition sub_category_name (category_name : string) (min_ilvl max_ilvl : Z)
  : string :=
  category_name +:+ "_ilvl" +:+ pretty min_ilvl +:+ "-" +:+ pretty max_ilvl.

(** The body of [for min_ilvl, max_ilvl in level_ranges], given the function
    to call for a sub-category. *)
Fixpoint subdivision_loop
    (scrape : string -> Filters -> bool -> M (list ItemRecord))
    (category_name : string) (filters : Filters) (ranges : list (Z * Z))
    (all_items_combined : list ItemRecord) : M (list ItemRecord) :=
  match ranges with
  | [] => ret all_items_combined
  | (min_ilvl, max_ilvl) :: ranges' =>
      let sub_filters := with_ilvl filters min_ilvl max_ilvl in
      let sub_category := sub_category_name category_name min_ilvl max_ilvl in
      items <~ scrape sub_category sub_filters false ;;
      sleep 2 ;;;
      subdivision_loop scrape category_name filters ranges'
        (all_items_combined ++ items)
  end.

(** The combined save at the end of [scrape_with_subdivision]. *)
Definition save_combined (category_name : string)
    (all_items_combined : list ItemRecord) : M unit :=
  match all_items_combined with
  | [] => ret tt
  | _ =>
      let filename := safe_name category_name +:+ "_COMBINED.json" in
      ts <~ now ;;
      write_file filename
        (FCategory (mkCategoryDoc category_name (length all_items_combined)
                      true ts all_items_combined))
  end.

(** [scrape_category] and [scrape_with_subdivision] call each other; [fuel]
    decreases at each of these calls.  [scrape_category] searches and
    fetches with the room it is called with; only subdividing asks for one
    level more. *)
Fixpoint scrape_category (fuel : nat) (category_name : string)
    (filters : Filters) (subdivide_if_full : bool) {struct fuel}
  : M (list ItemRecord) :=
  '(item_ids, query_id, total) <~
    search_items_with_filters fuel filters category_name ;;
  match item_ids with
  | [] => ret []
  | _ =>
      if (100 <=? length item_ids)%nat && (100 <? total)
         && subdivide_if_full
      then
        match fuel with
        | O => fun _ => OutOfFuel
        | S fuel' =>
            scrape_with_subdivision fuel' category_name filters total
        end
      else
        all_items <~ fetch_all fuel item_ids query_id ;;
        save_category category_name all_items ;;;
        ret all_items
  end
with scrape_with_subdivision (fuel : nat) (category_name : string)
    (filters : Filters) (total_items : Z) {struct fuel}
  : M (list ItemRecord) :=
  match fuel with
  | O => fun _ => OutOfFuel
  | S fuel' =>
      all_items_combined <~
        subdivision_loop (scrape_category fuel') category_name filters
          level_ranges [] ;;
      save_combined category_name all_items_combined ;;;
      ret all_items_combined
  end.

(** ** Session *)

(** The directory is taken to exist, so there is nothing to create. *)
Definition create_output_directory : M unit := ret tt.

(** Truth value of a Python string. *)
Definition truthy (s : string) : bool := negb (String.eqb s EmptyString).

Record SessionState := mkSession {
  completed : gset string;
  seen : gset string;
  all_items_collected : list ItemRecord
}.

(** The body of [for item_data in items] in [scrape_session]; the third
    component counts [new_items]. *)
Definition track_item (st : gset string * list ItemRecord * nat)
    (item_data : ItemRecord) : gset string * list ItemRecord * nat :=
  let '(seen_ids, collected, new_items) := st in
  match item_id item_data with
  | Some i =>
      if truthy i && negb (bool_decide (i ∈ seen_ids))
      then (seen_ids ∪ {[i]}, collected ++ [item_data], S new_items)
      else st
  | None => st
  end.

(** The body of [for cat_num, (category_name, filters) in
    enumerate(categories, 1)] for a category that is not skipped. *)
Definition process_category (fuel : nat) (num_categories : nat)
    (cat_num : nat) (category_name : string) (filters : Filters)
    (st : SessionState) : M SessionState :=
  elapsed <~ now ;;
  items <~ scrape_category fuel category_name filters true ;;
  let '(seen_ids, collected, new_items) :=
    foldl track_item (seen st, all_items_collected st, O) items in
  let completed' := completed st ∪ {[category_name]} in
  save_progress completed' seen_ids ;;;
  (if (cat_num <? num_categories)%nat
   then sleep DELAY_BETWEEN_SEARCHES else ret tt) ;;;
  ret (mkSession completed' seen_ids collected).

(** The loop itself, over the remaining categories. *)
Fixpoint session_loop (fuel : nat) (num_categories : nat) (cat_num : nat)
    (categories : list Category) (st : SessionState) : M SessionState :=
  match categories with
  | [] => ret st
  | (category_name, filters) :: categories' =>
      if bool_decide (category_name ∈ completed st)
      then session_loop fuel num_categories (S cat_num) categories' st
      else
        st' <~ process_category fuel num_categories cat_num category_name
                 filters st ;;
        session_loop fuel num_categories (S cat_num) categories' st'
  end.

Definition scrape_session (fuel : nat) (session_number : nat)
    (categories : list Category) : M unit :=
  create_output_directory ;;;
  '(completed_categories, seen_item_ids) <~ load_progress ;;
  start_time <~ now ;;
  st <~ session_loop fuel (length categories) 1 categories
          (mkSession completed_categories seen_item_ids []) ;;
  duration <~ now ;;
  ret tt.

(** ** Aggregator *)

Definition startswith (s pre : string) : bool := String.prefix pre s.

Definition endswith (s suf : string) : bool :=
  let n := String.length s in
  let m := String.length suf in
  (m <=? n)%nat && String.eqb (String.substring (n - m) m s) suf.

(** [data.get('items', [])] on a decoded document. *)
Definition data_items (f : file) : list ItemRecord :=
  match f with
  | FCategory d => items d
  | FMaster d => master_items d
  | FProgress _ | FCorrupt => []
  end.

(** The body of [for item in data.get('items', [])]. *)
Definition master_item (st : list ItemRecord * gset string)
    (item : ItemRecord) : list ItemRecord * gset string :=
  let '(all_items, seen_ids) := st in
  match item_id item with
  | Some i =>
      if truthy i && negb (bool_decide (i ∈ seen_ids))
      then (all_items ++ [item], seen_ids ∪ {[i]})
      else st
  | None => st
  end.

Definition scanned (filename : string) : bool :=
  endswith filename ".json"
  && negb (String.eqb filename "progress.json")
  && negb (startswith filename "MASTER").

(** The body of [for filename in os.listdir(OUTPUT_DIR)]: the entries come
    with the content [open] will find. *)
Fixpoint master_loop (entries : list (string * file))
    (st : list ItemRecord * gset string)
  : M (list ItemRecord * gset string) :=
  match entries with
  | [] => ret st
  | (filename, f) :: entries' =>
      if scanned filename then
        match f with
        | FCorrupt => raise JSONDecodeError
        | data => master_loop entries' (foldl master_item st (data_items data))
        end
      else master_loop entries' st
  end.

Definition create_master_file : M unit :=
  fun w =>
    ('(all_items, seen_ids) <~ master_loop (fs w) ([], ∅) ;;
     let master_file :=
       "MASTER_" +:+ pretty (length all_items) +:+ "_items.json" in
     ts <~ now ;;
     write_file master_file
       (FMaster (mkMasterDoc (length all_items) ts all_items))) w.

End Pipeline.

(** ** Reading a trace *)

(** The directory after the writes of a trace. *)
Definition replay (t : list event) (d : list (string * file))
  : list (string * file) :=
  foldl (fun d e => match e with
                    | EvWrite name f => fs_write name f d
                    | _ => d
                    end) d t.

(** The files a trace writes, in order. *)
Fixpoint writes (t : list event) : list (string * file) :=
  match t with
  | [] => []
  | EvWrite name f :: t' => (name, f) :: writes t'
  | _ :: t' => writes t'
  end.

Definition is_search (e : event) : bool :=
  match e with EvSearch _ => true | _ => false end.
Definition is_fetch (e : event) : bool :=
  match e with EvFetch _ _ => true | _ => false end.
Definition is_write (e : event) : bool :=
  match e with EvWrite _ _ => true | _ => false end.

Definition is_delay (e : event) : bool :=
  match e with EvSleep s => s =? DELAY_BETWEEN_FETCHES | _ => false end.

(** How many events of a trace satisfy [p]. *)
Definition count (p : event -> bool) (t : list event) : nat :=
  length (List.filter p t).

(** A request sent [k + 1] times, with the 60 second cooldown after each of
    the first [k]. *)
Definition retry_trace (e : event) (k : nat) : list event :=
  concat (replicate k [e; EvSleep 60]) ++ [e].

(** A request sent [k] times, with the cooldown after each sending and no
    further one: what a client does that gives up. *)
Definition busy_trace (e : event) (k : nat) : list event :=
  concat (replicate k [e; EvSleep 60]).

Definition is_429 {B} (r : response B) : bool :=
  match r with
  | HttpResponse status_code _ => status_code =? 429
  | RequestException => false
  end.

(** The server never answers 429 to the same request [K] times in a row. *)
Definition rate_limit_bounded (env : Environment) (K : nat) : Prop :=
  (forall n filters, exists k, (k < K)%nat /\
      is_429 (search_api env (n + k) filters) = false) /\
  (forall n ids query_id, exists k, (k < K)%nat /\
      is_429 (fetch_api env (n + k) ids query_id) = false).

(** [runs m w a t w']: from [w] the computation [m] returns [a], having done
    exactly the actions [t], and leaves [w']. *)
Definition runs {A} (m : M A) (w : World) (a : A) (t : list event)
    (w' : World) : Prop :=
  m w = Ret a w' /\ trace w' = trace w ++ t /\ fs w' = replay t (fs w).

(** What the search client returns for the response that ends the retries:
    the parsed fields on a decoded 200, the empty result otherwise. *)
Definition search_answer (r : response SearchBody) : list string * string * Z :=
  match r with
  | HttpResponse status_code (Some data) =>
      if status_code =? 200
      then (default [] (sb_result data), default EmptyString (sb_id data),
            default 0 (sb_total data))
      else ([], EmptyString, 0)
  | _ => ([], EmptyString, 0)
  end.

(** The same for the fetch client: the decoded body of a 200, else [None]. *)
Definition fetch_answer (r : response FetchBody) : option FetchBody :=
  match r with
  | HttpResponse status_code body =>
      if status_code =? 200 then body else None
  | RequestException => None
  end.

(** ** The fetch phase in the words of the specification

    "Partitions IDs into fixed-size batches (size 10), issues one request per
    batch, concatenates successful results in batch order, and sleeps a fixed
    inter-batch delay between requests (not after the last)."  [chunks] and
    [fetch_batches] say this directly; [fetch_all] above is the loop of the
    source, and the two are compared below. *)

Fixpoint chunks_upto {A} (n : nat) (size : nat) (l : list A) : list (list A) :=
  match n with
  | O => []
  | S n' =>
      match l with
      | [] => []
      | _ => take size l :: chunks_upto n' size (drop size l)
      end
  end.

(** Consecutive batches of [size] elements; the last one may be shorter. *)
Definition chunks {A} (size : nat) (l : list A) : list (list A) :=
  chunks_upto (length l) size l.

(** The records of a batch that succeeded, none for one that failed. *)
Definition batch_items (batch_data : option FetchBody) : list ItemRecord :=
  match batch_data with
  | Some data => default [] (fb_result data)
  | None => []
  end.

Fixpoint fetch_batches (env : Environment) (fuel : nat) (query_id : string)
    (batches : list (list string)) : M (list ItemRecord) :=
  match batches with
  | [] => ret []
  | batch :: batches' =>
      batch_data <~ fetch_items_batch env fuel batch query_id ;;
      (match batches' with
       | [] => ret tt
       | _ => sleep DELAY_BETWEEN_FETCHES
       end) ;;;
      later <~ fetch_batches env fuel query_id batches' ;;
      ret (batch_items batch_data ++ later)
  end.

(** The requests and sleeps of the phase when batch [i] is answered 429
    [retries !! i] times. *)
Fixpoint phase_trace (query_id : string) (batches : list (list string))
    (retries : list nat) : list event :=
  match batches, retries with
  | batch :: batches', k :: retries' =>
      retry_trace (EvFetch batch query_id) k ++
      match batches' with
      | [] => []
      | _ => EvSleep DELAY_BETWEEN_FETCHES
             :: phase_trace query_id batches' retries'
      end
  | _, _ => []
  end.

(** The answers that end the retries of the batches, when batch [i] is
    answered 429 [retries !! i] times and the first request of the phase is
    the [n]-th of the run. *)
Fixpoint phase_answers (env : Environment) (n : nat) (query_id : string)
    (batches : list (list string)) (retries : list nat)
  : list (response FetchBody) :=
  match batches, retries with
  | batch :: batches', k :: retries' =>
      fetch_api env (n + k) batch query_id
      :: phase_answers env (n + k + 1) query_id batches' retries'
  | _, _ => []
  end.

(** The records of an answer: the [result] of a decoded 200, none for any
    other answer. *)
Definition answer_records (r : response FetchBody) : list ItemRecord :=
  match r with
  | HttpResponse status_code (Some data) =>
      if status_code =? 200 then default [] (fb_result data) else []
  | _ => []
  end.

(** A server that returns at most one record per id it is asked for. *)
Definition honest_fetch (env : Environment) : Prop :=
  forall n ids query_id status_code records,
    fetch_api env n ids query_id
    = HttpResponse status_code (Some (mkFetchBody (Some records))) ->
    (length records <= length ids)%nat.

(** The file a save step writes for a list of items: none when the list is
    empty. *)
Definition saved_file (category_name suffix : string) (is_subdivided : bool)
    (ts : string) (all_items : list ItemRecord) : list (string * file) :=
  match all_items with
  | [] => []
  | _ => [(safe_name category_name +:+ suffix,
           FCategory (mkCategoryDoc category_name (length all_items)
                        is_subdivided ts all_items))]
  end.

(** The progress document [save_progress] writes. *)
Definition progress_doc (completed_set seen_set : gset string) (ts : string)
  : file :=
  FProgress (mkProgress (elements completed_set) (elements seen_set) ts).

(** The level-range sub-fetches of a subdivided category, one after the
    other: [sub_scrapes env fuel name filters ranges w parts w'] holds when
    [parts] lists, range by range, what [scrape_category] returns for the
    sub-category of that range with subdivision disabled, each call being
    followed by the 2 second pause. *)
Inductive sub_scrapes (env : Environment) (fuel : nat) (category_name : string)
    (filters : Filters)
  : list (Z * Z) -> World -> list (list ItemRecord) -> World -> Prop :=
  | sub_scrapes_nil w : sub_scrapes env fuel category_name filters [] w [] w
  | sub_scrapes_cons min_ilvl max_ilvl ranges w sub_items w1 parts w2 :
      scrape_category env fuel
        (sub_category_name category_name min_ilvl max_ilvl)
        (with_ilvl filters min_ilvl max_ilvl) false w = Ret sub_items w1 ->
      sub_scrapes env fuel category_name filters ranges
        (log (EvSleep 2) w1) parts w2 ->
      sub_scrapes env fuel category_name filters
        ((min_ilvl, max_ilvl) :: ranges) w (sub_items :: parts) w2.

(** The per-range files of a subdivided category: one for every range whose
    sub-fetch returned items. *)
Fixpoint sub_files (category_name : string) (ranges : list (Z * Z))
    (parts : list (list ItemRecord)) (stamps : list string)
  : list (string * file) :=
  match ranges, parts, stamps with
  | (min_ilvl, max_ilvl) :: ranges', sub_items :: parts', ts :: stamps' =>
      saved_file (sub_category_name category_name min_ilvl max_ilvl) ".json"
        false ts sub_items
      ++ sub_files category_name ranges' parts' stamps'
  | _, _, _ => []
  end.

(** The progress invariant on a directory: every non-empty id of every
    category document is in the set of seen ids. *)
Definition files_seen (d : list (string * file)) (seen_ids : gset string)
  : Prop :=
  forall name doc item i,
    fs_lookup name d = Some (FCategory doc) ->
    item ∈ items doc -> item_id item = Some i -> truthy i = true ->
    i ∈ seen_ids.

(** The loop state agrees with the directory: the progress store holds the
    two sets of the state, and the directory satisfies the invariant. *)
Definition in_sync (st : SessionState) (w : World) : Prop :=
  load_progress w = Ret (completed st, seen st) w /\
  files_seen (fs w) (seen st).

(** ** The aggregator in the words of the specification *)

(** The records of the files the aggregator scans, in file-enumeration
    order. *)
Fixpoint scanned_items (d : list (string * file)) : list ItemRecord :=
  match d with
  | [] => []
  | (filename, f) :: d' =>
      if scanned filename then data_items f ++ scanned_items d'
      else scanned_items d'
  end.

(** The records carrying the id [i]. *)
Definition with_id (i : string) (l : list ItemRecord) : list ItemRecord :=
  filter (fun item => item_id item = Some i) l.

(** What the aggregator has done after the records [done]: [seen_ids] holds
    the non-empty ids met, and [all_items] holds, for each of them, the first
    record that carries it, in the order met. *)
Definition master_inv (all_items : list ItemRecord) (seen_ids : gset string)
    (done : list ItemRecord) : Prop :=
  (forall i, i ∈ seen_ids <->
             truthy i = true /\ exists item, item ∈ done /\ item_id item = Some i) /\
  (forall i, truthy i = true ->
             with_id i all_items = take 1 (with_id i done)) /\
  Forall (fun item => exists i, item_id item = Some i /\ truthy i = true)
    all_items /\
  sublist all_items done.

(** ** What the pipeline may do *)

(** An action within the limits of the script: a fetch carries between one
    and [ITEMS_PER_FETCH] ids, a sleep lasts one of the configured delays,
    and a write puts a category document anywhere or the progress document
    in the progress file. *)
Definition allowed (e : event) : Prop :=
  match e with
  | EvSearch _ => True
  | EvFetch item_ids _ =>
      (1 <= length item_ids <= ITEMS_PER_FETCH)%nat
  | EvSleep seconds =>
      seconds ∈ [2; DELAY_BETWEEN_FETCHES; DELAY_BETWEEN_SEARCHES; 60]
  | EvWrite name f =>
      match f with
      | FCategory _ => True
      | FProgress _ => name = PROGRESS_FILE
      | _ => False
      end
  end.

(** A computation that, when it returns, has added only actions satisfying
    [P] to the trace, the directory being changed by the writes among them
    and by nothing else. *)
Definition emits {A} (P : event -> Prop) (m : M A) : Prop :=
  forall w a w', m w = Ret a w' ->
    exists t, trace w' = trace w ++ t /\ fs w' = replay t (fs w) /\ Forall P t.

(** A directory as the pipeline leaves it: no two entries under one name,
    and every file the aggregator scans is a category document. *)
Definition wellformed (d : list (string * file)) : Prop :=
  NoDup (map fst d) /\
  Forall (fun nf : string * file =>
            scanned nf.1 = true -> exists doc, nf.2 = FCategory doc) d.

(** ** Category generator *)

(** Truth value of an optional integer ([None] and [0] are false). *)
Definition int_truthy (o : option Z) : bool :=
  match o with
  | Some z => negb (z =? 0)
  | None => false
  end.

(** [{x or default}] inside an f-string. *)
Definition fmt_or (o : option Z) (default : string) : string :=
  if int_truthy o then from_option pretty default o else default.

(** The filter dictionary built for a rarity and a price bucket; every
    bucket is priced in chaos. *)
Definition price_filters (rarity_option : string) (min_p max_p : option Z)
  : Filters :=
  mkFilters rarity_option min_p max_p None.

Definition session1 : list Category :=
  map (fun i =>
         ("Rare_" +:+ pretty i +:+ "-" +:+ pretty (i + 1) +:+ "c",
          price_filters "rare" (Some i) (Some (i + 1))))
    (seqZ 0 10).

Definition session2 : list Category :=
  map (fun '(min_p, max_p) =>
         ("Rare_" +:+ pretty min_p +:+ "-" +:+ pretty max_p +:+ "c",
          price_filters "rare" (Some min_p) (Some max_p)))
    [(10, 12); (12, 15); (15, 18); (18, 20); (20, 25); (25, 30); (30, 35);
     (35, 40); (40, 45); (45, 50)].

Definition session3 : list Category :=
  map (fun '(min_p, max_p) =>
         let price_desc :=
           pretty min_p +:+ "-" +:+ fmt_or max_p "inf" +:+ "c" in
         ("Rare_" +:+ price_desc,
          price_filters "rare" (Some min_p)
            (if int_truthy max_p then max_p else None)))
    [(50, Some 60); (60, Some 70); (70, Some 80); (80, Some 90);
     (90, Some 100); (100, Some 120); (120, Some 150); (150, Some 200);
     (200, Some 300); (300, Some 500); (500, None)].

(** Sessions 4 and 5 share their loop body. *)
Definition open_ended (prefix rarity_option : string)
    (ranges : list (option Z * option Z)) : list Category :=
  map (fun '(min_p, max_p) =>
         let price_desc :=
           fmt_or min_p "0" +:+ "-" +:+ fmt_or max_p "inf" +:+ "c" in
         (prefix +:+ price_desc,
          price_filters rarity_option
            (if int_truthy min_p then min_p else None)
            (if int_truthy max_p then max_p else None)))
    ranges.

Definition session4 : list Category :=
  open_ended "Unique_" "unique"
    [(None, Some 5); (Some 5, Some 10); (Some 10, Some 15);
     (Some 15, Some 20); (Some 20, Some 30); (Some 30, Some 40);
     (Some 40, Some 50); (Some 50, Some 75); (Some 75, Some 100);
     (Some 100, Some 150); (Some 150, Some 200); (Some 200, None)].

Definition session5 : list Category :=
  open_ended "Magic_" "magic"
    [(None, Some 2); (Some 2, Some 5); (Some 5, Some 10); (Some 10, Some 20);
     (Some 20, None)].

Definition generate_all_categories : gmap nat (list Category) :=
  list_to_map
    [(1%nat, session1); (2%nat, session2); (3%nat, session3);
     (4%nat, session4); (5%nat, session5)].

(** All generated categories, session after session. *)
Definition all_categories : list Category :=
  session1 ++ session2 ++ session3 ++ session4 ++ session5.

(** A price lies in the bucket of a filter when it respects the bounds the
    filter carries. *)
Definition in_bucket (p : Z) (filters : Filters) : Prop :=
  from_option (fun lo => lo <= p) True (price_min filters) /\
  from_option (fun hi => p <= hi) True (price_max filters).

(** Consecutive buckets meet: the first starts at [lo], each one ends where
    the next starts, and the last has no upper bound. *)
Fixpoint chained (lo : option Z) (buckets : list Filters) : Prop :=
  match buckets with
  | [] => lo = None
  | b :: buckets' => price_min b = lo /\ chained (price_max b) buckets'
  end.

(** ** File names of a category *)

(** Every file name the pipeline can use for a category: its own file, the
    combined file, and the file of each level range. *)
Definition category_files (category_name : string) : list string :=
  (safe_name category_name +:+ ".json")
  :: (safe_name category_name +:+ "_COMBINED.json")
  :: map (fun '(min_ilvl, max_ilvl) =>
            safe_name (sub_category_name category_name min_ilvl max_ilvl)
            +:+ ".json")
       level_ranges.

(** The characters [safe_name] removes or replaces. *)
Definition unsafe_chars : list Ascii.ascii :=
  [" "%char; "|"%char; "/"%char; ":"%char].

(** ** Ids of a list of records *)

(** The ids the script recognises in a list of records: present and not
    empty. *)
Definition nonempty_ids (records : list ItemRecord) : list string :=
  omap (fun item =>
          match item_id item with
          | Some i => if truthy i then Some i else None
          | None => None
          end) records.

Definition id_set (records : list ItemRecord) : gset string :=
  list_to_set (nonempty_ids records).

(** The records the aggregator keeps for a directory. *)
Definition master_of (d : list (string * file)) : list ItemRecord :=
  (foldl master_item ([], ∅) (scanned_items d)).1.

(** The name the aggregator gives the master file of a directory. *)
Definition master_name (d : list (string * file)) : string :=
  "MASTER_" +:+ pretty (length (master_of d)) +:+ "_items.json".

(** A scanned file that does not decode. *)
Definition undecodable (nf : string * file) : Prop :=
  scanned nf.1 = true /\ nf.2 = FCorrupt.

(** ** The basic scraper, [poe2_api_scraper.py]

    It has its own query shape, no retry and no exception handler around its
    requests, so it gets its own small world: the requests sent and the
    sleeps taken, and results that either return or raise. *)
Module Basic.

(** The body posted by [search_items]: the status option and, when present,
    the filters. *)
Record Query := mkQuery {
  status_option : string;
  query_filters : option Filters
}.

Record Server := mkServer {
  post : nat -> Query -> response SearchBody;
  get : nat -> list string -> string -> response FetchBody
}.

Inductive action : Type :=
  | Post (query : Query)
  | Get (item_ids : list string) (query_id : string)
  | Sleep (seconds : Z).

Record State := mkState { sent : nat; actions : list action }.

Inductive error : Type :=
  | TransportError
  | DecodeError
  | AttributeError.

Inductive result (A : Type) : Type :=
  | Ok (a : A) (s : State)
  | Err (e : error) (s : State).
Arguments Ok {A} a s.
Arguments Err {A} e s.

Definition R (A : Type) : Type := State -> result A.

Definition pure {A} (a : A) : R A := fun s => Ok a s.

Definition andthen {A B} (m : R A) (k : A -> R B) : R B :=
  fun s => match m s with
           | Ok a s' => k a s'
           | Err e s' => Err e s'
           end.

Definition do_sleep (seconds : Z) : R unit :=
  fun s => Ok tt (mkState (sent s) (actions s ++ [Sleep seconds])).

(** The state a computation ends in, whether it returns or raises. *)
Definition state_of {A} (r : result A) : State :=
  match r with
  | Ok _ s => s
  | Err _ s => s
  end.

Section Functions.

Variable srv : Server.

Definition search_items (query_params : Query)
  : R (list string * string) :=
  fun s =>
    let s' := mkState (S (sent s)) (actions s ++ [Post query_params]) in
    match post srv (sent s) query_params with
    | RequestException => Err TransportError s'
    | HttpResponse status_code body =>
        if status_code =? 200 then
          match body with
          | None => Err DecodeError s'
          | Some data =>
              Ok (default [] (sb_result data),
                  default EmptyString (sb_id data)) s'
          end
        else Ok ([], EmptyString) s'
    end.

Definition fetch_item_details (item_ids : list string) (query_id : string)
  : R (option FetchBody) :=
  fun s =>
    let asked := take 10 item_ids in
    let s' := mkState (S (sent s)) (actions s ++ [Get asked query_id]) in
    match get srv (sent s) asked query_id with
    | RequestException => Err TransportError s'
    | HttpResponse status_code body =>
        if status_code =? 200 then
          match body with
          | None => Err DecodeError s'
          | Some data => Ok (Some data) s'
          end
        else Ok None s'
    end.

(** [print_items_summary] only prints, but [items_data.get] needs a
    dictionary. *)
Definition print_items_summary (items_data : option FetchBody) : R unit :=
  match items_data with
  | None => fun s => Err AttributeError s
  | Some _ => pure tt
  end.

Definition simple_query : Query := mkQuery "online" None.

Definition simple_search : R unit :=
  andthen (search_items simple_query) (fun '(item_ids, query_id) =>
  andthen (match item_ids with
           | [] => pure tt
           | _ => do_sleep 1
           end) (fun _ =>
  andthen (fetch_item_details item_ids query_id) (fun item_details =>
  print_items_summary item_details))).

End Functions.

End Basic.

(** ** Concrete worlds and servers, used as test inputs *)

Definition fresh_world : World := mkWorld [] 0 0 [].

Definition corrupt_world : World :=
  mkWorld [(PROGRESS_FILE, FCorrupt)] 0 0 [].

Definition resumed_world : World :=
  mkWorld
    [(PROGRESS_FILE,
      FProgress (mkProgress ["Rare_0-1c"] ["id1"; "id2"]
                   "2025-01-01T00:00:00"))] 0 0 [].

(** A server that answers 429 to the first request of a run and 200 to
    every later one: a search finds three ids, a fetch returns one record
    per id asked for. *)
Definition three_ids : SearchBody :=
  mkSearchBody (Some 3) (Some ["a"; "b"; "c"]) (Some "q").

Definition records_of (ids : list string) : list ItemRecord :=
  map (fun i => mkItem (Some i) "listing") ids.

Definition busy_once_env : Environment :=
  mkEnv
    (fun n _ => match n with
                | O => HttpResponse 429 None
                | _ => HttpResponse 200 (Some three_ids)
                end)
    (fun n ids _ => match n with
                    | O => HttpResponse 429 None
                    | _ => HttpResponse 200
                             (Some (mkFetchBody (Some (records_of ids))))
                    end)
    (fun n => "T" +:+ pretty n).

Definition rare_0_1 : Filters := mkFilters "rare" (Some 0) (Some 1) None.

(** A server with nothing to offer: every search succeeds and finds no
    item. *)
Definition nothing_env : Environment :=
  mkEnv (fun _ _ => HttpResponse 200 (Some (mkSearchBody (Some 0) (Some []) (Some "q"))))
    (fun _ _ _ => HttpResponse 200 (Some (mkFetchBody (Some []))))
    (fun n => "T" +:+ pretty n).



(** A server on which the category itself overflows the window (100 ids of
    150), the level range 1-20 holds one item and the other ranges none. *)
Definition overflow_env : Environment :=
  mkEnv
    (fun _ filters =>
       match ilvl filters with
       | None => HttpResponse 200
                   (Some (mkSearchBody (Some 150) (Some (replicate 100 "x"))
                            (Some "q")))
       | Some (1, _) => HttpResponse 200
                          (Some (mkSearchBody (Some 1) (Some ["a"]) (Some "q1")))
       | Some _ => HttpResponse 200
                     (Some (mkSearchBody (Some 0) (Some []) (Some "q2")))
       end)
    (fun _ ids _ => HttpResponse 200 (Some (mkFetchBody (Some (records_of ids)))))
    (fun n => "T" +:+ pretty n).

Definition twelve_ids : list string :=
  ["a"; "b"; "c"; "d"; "e"; "f"; "g"; "h"; "i"; "j"; "k"; "l"].

(** A server whose only record carries an empty [id]. *)
Definition blank_id_env : Environment :=
  mkEnv
    (fun _ _ => HttpResponse 200
                  (Some (mkSearchBody (Some 1) (Some ["a"]) (Some "q"))))
    (fun _ _ _ => HttpResponse 200
                    (Some (mkFetchBody (Some [mkItem (Some EmptyString) "listing"]))))
    (fun n => "T" +:+ pretty n).

(** A directory left by an interrupted attempt: the category file is there,
    the progress file is not. *)
Definition orphan_world : World :=
  mkWorld
    [("Rare_0-1c.json",
      FCategory (mkCategoryDoc "Rare_0-1c" 1 false "T0"
                   [mkItem (Some "x") "listing"]))] 0 0 [].

(** A directory with two category files sharing the id [x], next to the
    progress file and an earlier master file. *)
Definition two_files_world : World :=
  mkWorld
    [("Rare_0-1c.json",
      FCategory (mkCategoryDoc "Rare_0-1c" 2 false "T0"
                   [mkItem (Some "x") "first"; mkItem (Some "y") "only"]));
     ("progress.json", FProgress (mkProgress ["Rare_0-1c"] ["x"; "y"] "T1"));
     ("MASTER_1_items.json",
      FMaster (mkMasterDoc 1 "T2" [mkItem (Some "z") "old"]));
     ("Rare_1-2c.json",
      FCategory (mkCategoryDoc "Rare_1-2c" 1 false "T3"
                   [mkItem (Some "x") "second"]))] 0 4 [].

(** A directory whose only category file holds a record with an empty
    [id]. *)
Definition blank_id_world : World :=
  mkWorld
    [("Rare_0-1c.json",
      FCategory (mkCategoryDoc "Rare_0-1c" 1 false "T0"
                   [mkItem (Some EmptyString) "listing"]))] 0 1 [].

(** A directory whose category file was cut short while being written. *)
Definition truncated_world : World :=
  mkWorld [("Rare_0-1c.json", FCorrupt)] 0 1 [].

(** The directory of [two_files_world], listed in the opposite order. *)
Definition reversed_world : World :=
  mkWorld (reverse (fs two_files_world)) 0 4 [].

(** A server for the basic scraper that finds three ids and then limits the
    rate of the fetch. *)
Definition limiting_server : Basic.Server :=
  Basic.mkServer
    (fun _ _ => HttpResponse 200 (Some three_ids))
    (fun _ _ _ => HttpResponse 429 None).

(** * Properties *)

(** Arithmetic on batch indices. *)
Ltac batch_arith := unfold ITEMS_PER_FETCH in *; simpl length in *; lia.


(** ** The directory *)

Lemma fs_lookup_write_eq name f d :
  fs_lookup name (fs_write name f d) = Some f.
Proof.
  induction d as [|[n g] d IH]; simpl.
  - by rewrite String.eqb_refl.
  - destruct (String.eqb n name) eqn:E; simpl; rewrite E; auto.
Qed.

Lemma fs_lookup_write_ne name name' f d :
  name <> name' -> fs_lookup name' (fs_write name f d) = fs_lookup name' d.
Proof.
  intros Hne. induction d as [|[n g] d IH]; simpl.
  - destruct (String.eqb name name') eqn:E; auto.
    apply String.eqb_eq in E. contradiction.
  - destruct (String.eqb n name) eqn:E; simpl.
    + apply String.eqb_eq in E. subst n.
      destruct (String.eqb name name') eqn:E'; auto.
      apply String.eqb_eq in E'. contradiction.
    + destruct (String.eqb n name'); auto.
Qed.

Lemma replay_app t1 t2 d : replay (t1 ++ t2) d = replay t2 (replay t1 d).
Proof. unfold replay. apply foldl_app. Qed.

(** ** Composition of runs *)

Lemma runs_ret {A} (a : A) w : runs (ret a) w a [] w.
Proof. unfold runs, ret. by rewrite app_nil_r. Qed.

Lemma runs_bind {A B} (m : M A) (k : A -> M B) w a t1 w1 b t2 w2 :
  runs m w a t1 w1 -> runs (k a) w1 b t2 w2 ->
  runs (bind m k) w b (t1 ++ t2) w2.
Proof.
  intros (Hm & Ht1 & Hf1) (Hk & Ht2 & Hf2). unfold runs, bind.
  rewrite Hm. split; [done|]. split.
  - by rewrite Ht2, Ht1, app_assoc.
  - by rewrite Hf2, Hf1, replay_app.
Qed.

Lemma runs_sleep seconds w :
  runs (sleep seconds) w tt [EvSleep seconds] (log (EvSleep seconds) w).
Proof. by unfold runs, sleep, log. Qed.

(** ** Progress store *)

Lemma runs_save_progress env C Sn w :
  runs (save_progress env C Sn) w tt
    [EvWrite PROGRESS_FILE
       (FProgress (mkProgress (elements C) (elements Sn)
                     (clock env (clock_reads w))))]
    (mkWorld (fs_write PROGRESS_FILE
                (FProgress (mkProgress (elements C) (elements Sn)
                              (clock env (clock_reads w)))) (fs w))
       (requests w) (S (clock_reads w))
       (trace w ++ [EvWrite PROGRESS_FILE
                      (FProgress (mkProgress (elements C) (elements Sn)
                                    (clock env (clock_reads w))))])).
Proof. by unfold runs, save_progress, bind, now, write_file. Qed.

(** C10. Round trip of the progress store: [load_progress] right after
    [save_progress completed seen] returns exactly the two sets that were
    saved, although the file holds them as lists. *)
Theorem save_then_load_progress env
    (completed_categories seen_item_ids : gset string) w :
  exists w',
    save_progress env completed_categories seen_item_ids w = Ret tt w' /\
    load_progress w' = Ret (completed_categories, seen_item_ids) w'.
Proof.
  destruct (runs_save_progress env completed_categories seen_item_ids w)
    as (Hs & _ & _).
  eexists. split; [exact Hs|].
  unfold load_progress; simpl. rewrite fs_lookup_write_eq. simpl.
  by rewrite !list_to_set_elements_L.
Qed.

(** C1, as the code has it.  [load_progress] returns the persisted state when
    the progress file holds a progress document and the empty state when the
    file is missing; a progress file that [json.load] rejects is not turned
    into the empty state: the decoding error is raised. *)
Theorem load_progress_cases (w : World) :
  (forall d, fs_lookup PROGRESS_FILE (fs w) = Some (FProgress d) ->
     load_progress w =
     Ret (list_to_set (completed_categories d),
          list_to_set (seen_item_ids d)) w) /\
  (fs_lookup PROGRESS_FILE (fs w) = None ->
     load_progress w = Ret (∅, ∅) w) /\
  (fs_lookup PROGRESS_FILE (fs w) = Some FCorrupt ->
     load_progress w = Raise JSONDecodeError w).
Proof.
  unfold load_progress. repeat split.
  - intros d ->. reflexivity.
  - intros ->. reflexivity.
  - intros ->. reflexivity.
Qed.

Lemma load_progress_cases_witness :
  load_progress resumed_world =
    Ret (list_to_set ["Rare_0-1c"], list_to_set ["id1"; "id2"]) resumed_world /\
  load_progress fresh_world = Ret (∅, ∅) fresh_world /\
  load_progress corrupt_world = Raise JSONDecodeError corrupt_world.
Proof.
  destruct (load_progress_cases resumed_world) as (Hvalid & _ & _).
  destruct (load_progress_cases fresh_world) as (_ & Hmissing & _).
  destruct (load_progress_cases corrupt_world) as (_ & _ & Hcorrupt).
  split; [|split].
  - exact (Hvalid _ eq_refl).
  - exact (Hmissing eq_refl).
  - exact (Hcorrupt eq_refl).
Defined.

(** C1 as stated fails: with a corrupt progress file on disk,
    [load_progress] raises instead of returning the empty state. *)
Lemma load_progress_corrupt_raises :
  fs_lookup PROGRESS_FILE (fs corrupt_world) = Some FCorrupt /\
  load_progress corrupt_world = Raise JSONDecodeError corrupt_world /\
  load_progress corrupt_world <> Ret (∅, ∅) corrupt_world.
Proof. repeat split. discriminate. Qed.

(** ** HTTP clients *)

Lemma retry_trace_S e k :
  retry_trace e (S k) = [e; EvSleep 60] ++ retry_trace e k.
Proof. reflexivity. Qed.

Lemma is_429_true {B} (r : response B) :
  is_429 r = true -> exists body, r = HttpResponse 429 body.
Proof.
  destruct r as [s b|]; simpl; [|discriminate].
  intros H. apply Z.eqb_eq in H. subst. eauto.
Qed.

Section Clients.

Variable env : Environment.

Lemma search_retry fuel filters name k : forall w,
  (k < fuel)%nat ->
  (forall j, (j < k)%nat ->
     is_429 (search_api env (requests w + j) filters) = true) ->
  is_429 (search_api env (requests w + k) filters) = false ->
  search_items_with_filters env fuel filters name w =
  Ret (search_answer (search_api env (requests w + k) filters))
    (mkWorld (fs w) (requests w + k + 1) (clock_reads w)
       (trace w ++ retry_trace (EvSearch filters) k)).
Proof.
  revert fuel. induction k as [|k IH]; intros fuel w Hfuel Hbusy Hlast.
  - destruct fuel as [|fuel]; [lia|]. simpl.
    unfold bind, requests_post. rewrite Nat.add_0_r in *.
    destruct (search_api env (requests w) filters) as [s body|] eqn:E;
      simpl in *.
    + rewrite Hlast.
      replace (requests w + 1)%nat with (S (requests w)) by lia.
      by destruct (s =? 200), body.
    + by replace (requests w + 1)%nat with (S (requests w)) by lia.
  - destruct fuel as [|fuel]; [lia|]. simpl.
    unfold bind at 1. unfold requests_post.
    pose proof (Hbusy O ltac:(lia)) as H0. rewrite Nat.add_0_r in H0.
    apply is_429_true in H0 as [body ->]. simpl.
    unfold bind, sleep, log; simpl.
    rewrite (IH fuel); simpl.
    + replace (requests w + S k)%nat with (S (requests w + k)) by lia.
      do 2 f_equal; try lia.
      rewrite retry_trace_S. by rewrite <- !app_assoc.
    + lia.
    + intros j Hj.
      replace (S (requests w + j)) with (requests w + S j)%nat by lia.
      apply Hbusy. lia.
    + by replace (S (requests w + k)) with (requests w + S k)%nat by lia.
Qed.

Lemma fetch_retry fuel item_ids query_id k : forall w,
  item_ids <> [] ->
  (k < fuel)%nat ->
  (forall j, (j < k)%nat ->
     is_429 (fetch_api env (requests w + j)
               (take ITEMS_PER_FETCH item_ids) query_id) = true) ->
  is_429 (fetch_api env (requests w + k)
            (take ITEMS_PER_FETCH item_ids) query_id) = false ->
  fetch_items_batch env fuel item_ids query_id w =
  Ret (fetch_answer (fetch_api env (requests w + k)
                       (take ITEMS_PER_FETCH item_ids) query_id))
    (mkWorld (fs w) (requests w + k + 1) (clock_reads w)
       (trace w ++
        retry_trace (EvFetch (take ITEMS_PER_FETCH item_ids) query_id) k)).
Proof.
  revert fuel. induction k as [|k IH]; intros fuel w Hne Hfuel Hbusy Hlast.
  - destruct fuel as [|fuel]; [lia|].
    destruct item_ids as [|i ids]; [done|]. simpl.
    unfold bind, requests_get. rewrite Nat.add_0_r in *.
    destruct (fetch_api env (requests w) _ query_id) as [s body|] eqn:E;
      simpl in *.
    + rewrite Hlast.
      replace (requests w + 1)%nat with (S (requests w)) by lia.
      by destruct (s =? 200).
    + by replace (requests w + 1)%nat with (S (requests w)) by lia.
  - destruct fuel as [|fuel]; [lia|].
    pose proof (Hbusy O ltac:(lia)) as H0. rewrite Nat.add_0_r in H0.
    apply is_429_true in H0 as [body H0].
    specialize (IH fuel
      (mkWorld (fs w) (S (requests w)) (clock_reads w)
         ((trace w ++ [EvFetch (take ITEMS_PER_FETCH item_ids) query_id])
          ++ [EvSleep 60])) Hne).
    simpl in IH.
    destruct item_ids as [|i ids]; [done|].
    cbn [fetch_items_batch]. unfold bind at 1. unfold requests_get.
    rewrite H0. unfold bind, sleep, log.
    change (429 =? 200) with false. change (429 =? 429) with true.
    cbv beta iota. cbn [fs requests clock_reads trace].
    rewrite IH.
    + replace (requests w + S k)%nat with (S (requests w + k)) by lia.
      do 2 f_equal; try lia.
      rewrite retry_trace_S. by rewrite <- !app_assoc.
    + lia.
    + intros j Hj.
      replace (S (requests w + j)) with (requests w + S j)%nat by lia.
      apply Hbusy. lia.
    + by replace (S (requests w + k)) with (requests w + S k)%nat by lia.
Qed.

Lemma busy_trace_S e k :
  busy_trace e (S k) = [e; EvSleep 60] ++ busy_trace e k.
Proof. reflexivity. Qed.

(** A client that is answered 429 at every level the stack has room for
    gives up with the empty result. *)
Lemma search_gives_up fuel filters name : forall w,
  (forall j, (j < fuel)%nat ->
     is_429 (search_api env (requests w + j) filters) = true) ->
  search_items_with_filters env fuel filters name w =
  Ret ([], EmptyString, 0)
    (mkWorld (fs w) (requests w + fuel) (clock_reads w)
       (trace w ++ busy_trace (EvSearch filters) fuel)).
Proof.
  induction fuel as [|fuel IH]; intros w Hbusy.
  - cbn. unfold ret. rewrite Nat.add_0_r, app_nil_r. by destruct w.
  - simpl. unfold bind at 1. unfold requests_post.
    pose proof (Hbusy O ltac:(lia)) as H0. rewrite Nat.add_0_r in H0.
    apply is_429_true in H0 as [body ->]. simpl.
    unfold bind, sleep, log; simpl.
    rewrite IH; simpl.
    + do 2 f_equal; [lia|].
      rewrite busy_trace_S. by rewrite <- !app_assoc.
    + intros j Hj.
      replace (S (requests w + j)) with (requests w + S j)%nat by lia.
      apply Hbusy. lia.
Qed.


(** Among the first [K] answers, either one is not a 429, or all are. *)
Lemma first_answer_or_none {B} (resp : nat -> response B) K :
  (exists k, (k < K)%nat /\ is_429 (resp k) = false /\
             forall j, (j < k)%nat -> is_429 (resp j) = true) \/
  (forall j, (j < K)%nat -> is_429 (resp j) = true).
Proof.
  induction K as [|K IH]; [right; intros j Hj; lia|].
  destruct IH as [(k & Hk & Hans & Hbusy)|Hall].
  - left. exists k. split; [lia|done].
  - destruct (is_429 (resp K)) eqn:E.
    + right. intros j Hj. destruct (decide (j = K)) as [->|Hne]; [done|].
      apply Hall. lia.
    + left. exists K. split; [lia|]. split; [done|]. exact Hall.
Qed.

(** The search client always returns, in one of two ways: with the first
    answer that is not a 429, or, when the stack has no room left, with the
    empty result. *)
Lemma search_cases fuel filters name w :
  exists k v w1,
    search_items_with_filters env fuel filters name w = Ret v w1 /\
    fs w1 = fs w /\ clock_reads w1 = clock_reads w /\
    ((k < fuel)%nat /\
     v = search_answer (search_api env (requests w + k) filters) /\
     trace w1 = trace w ++ retry_trace (EvSearch filters) k
     \/
     k = fuel /\ v = ([], EmptyString, 0) /\
     trace w1 = trace w ++ busy_trace (EvSearch filters) fuel).
Proof.
  destruct (first_answer_or_none
              (fun j => search_api env (requests w + j) filters) fuel)
    as [(k & Hk & Hans & Hbusy)|Hall].
  - exists k. do 2 eexists. split; [by apply search_retry|].
    do 2 (split; [done|]). left. done.
  - exists fuel. do 2 eexists. split; [by apply search_gives_up|].
    do 2 (split; [done|]). right. done.
Qed.

End Clients.




(** *** Termination of the retries under a bounded rate limit *)

Lemma first_answer {B} (resp : nat -> response B) K :
  (exists k, (k < K)%nat /\ is_429 (resp k) = false) ->
  exists k, (k < K)%nat /\ is_429 (resp k) = false /\
            forall j, (j < k)%nat -> is_429 (resp j) = true.
Proof.
  revert resp. induction K as [|K IH]; intros resp (k & Hk & Hans); [lia|].
  destruct (is_429 (resp O)) eqn:E0.
  - destruct k as [|k]; [congruence|].
    destruct (IH (fun n => resp (S n))) as (k' & Hk' & Hans' & Hbusy).
    { exists k. split; [lia|done]. }
    exists (S k'). split; [lia|]. split; [done|].
    intros [|j] Hj; [done|]. apply Hbusy. lia.
  - exists O. split; [lia|]. split; [done|]. intros j Hj. lia.
Qed.

Lemma writes_app t1 t2 : writes (t1 ++ t2) = writes t1 ++ writes t2.
Proof.
  induction t1 as [|e t1 IH]; [done|]. destruct e; simpl; by rewrite ?IH.
Qed.

Lemma replay_no_writes t d : writes t = [] -> replay t d = d.
Proof.
  revert d. induction t as [|e t IH]; intros d H; [done|].
  destruct e; simpl in *; try apply IH; done.
Qed.

Lemma writes_retry_trace e k : is_write e = false -> writes (retry_trace e k) = [].
Proof.
  intros He. induction k as [|k IH].
  - by destruct e.
  - rewrite retry_trace_S, writes_app, IH. by destruct e.
Qed.

Section Termination.

Variable env : Environment.
Variable K : nat.
Hypothesis Hbounded : rate_limit_bounded env K.

Lemma search_runs fuel filters name w :
  (K <= fuel)%nat ->
  exists k w',
    (k < K)%nat /\
    runs (search_items_with_filters env fuel filters name) w
      (search_answer (search_api env (requests w + k) filters))
      (retry_trace (EvSearch filters) k) w'.
Proof.
  intros Hfuel.
  destruct (first_answer (fun j => search_api env (requests w + j) filters) K)
    as (k & Hk & Hans & Hbusy).
  { apply (proj1 Hbounded). }
  exists k. eexists. split; [done|]. split; [|split].
  - apply search_retry; [lia|done|done].
  - reflexivity.
  - simpl. by rewrite replay_no_writes by by apply writes_retry_trace.
Qed.

Lemma fetch_items_batch_runs fuel item_ids query_id w :
  (K <= fuel)%nat -> item_ids <> [] ->
  exists k w',
    (k < K)%nat /\
    runs (fetch_items_batch env fuel item_ids query_id) w
      (fetch_answer (fetch_api env (requests w + k)
                       (take ITEMS_PER_FETCH item_ids) query_id))
      (retry_trace (EvFetch (take ITEMS_PER_FETCH item_ids) query_id) k) w'.
Proof.
  intros Hfuel Hne.
  destruct (first_answer
              (fun j => fetch_api env (requests w + j)
                          (take ITEMS_PER_FETCH item_ids) query_id) K)
    as (k & Hk & Hans & Hbusy).
  { apply (proj2 Hbounded). }
  exists k. eexists. split; [done|]. split; [|split].
  - apply fetch_retry; [done|lia|done|done].
  - reflexivity.
  - simpl. by rewrite replay_no_writes by by apply writes_retry_trace.
Qed.

End Termination.

(** ** Fetch phase *)

Lemma chunks_upto_enough {A} size (l : list A) : forall n,
  (0 < size)%nat -> (length l <= n)%nat ->
  chunks_upto n size l = chunks size l.
Proof.
  unfold chunks. remember (length l) as m eqn:Hm.
  revert l Hm. induction m as [m IH] using lt_wf_ind.
  intros l Hm n Hsize Hn. subst m.
  destruct l as [|x l].
  - by destruct n.
  - destruct n as [|n]; [cbn [length] in Hn; lia|].
    cbn [chunks_upto length].
    f_equal.
    assert (length (drop size (x :: l)) <= length l)%nat as Hle.
    { rewrite length_drop. cbn [length]. lia. }
    cbn [length] in Hn.
    rewrite (IH (length (drop size (x :: l))) ltac:(cbn [length]; lia)
               _ eq_refl n) by (done || lia).
    by rewrite (IH (length (drop size (x :: l))) ltac:(cbn [length]; lia)
                  _ eq_refl (length l)) by (done || lia).
Qed.

Lemma chunks_cons {A} size (l : list A) :
  (0 < size)%nat -> l <> [] ->
  chunks size l = take size l :: chunks size (drop size l).
Proof.
  intros Hsize Hne. destruct l as [|x l]; [done|].
  unfold chunks at 1. cbn [length chunks_upto]. f_equal.
  apply chunks_upto_enough; [done|].
  rewrite length_drop. cbn [length]. lia.
Qed.

Lemma chunks_concat {A} size (l : list A) :
  (0 < size)%nat -> concat (chunks size l) = l.
Proof.
  intros Hsize. remember (length l) as m eqn:Hm.
  revert l Hm. induction m as [m IH] using lt_wf_ind. intros l ->.
  destruct l as [|x l]; [done|].
  rewrite chunks_cons by done. cbn [concat].
  rewrite (IH (length (drop size (x :: l)))); [apply take_drop| |done].
  rewrite length_drop. cbn [length]. lia.
Qed.

(** Every batch holds between 1 and [size] ids, and every batch but the last
    holds exactly [size]. *)
Lemma chunks_sizes {A} size (l : list A) :
  (0 < size)%nat ->
  forall i b, chunks size l !! i = Some b ->
    (1 <= length b <= size)%nat /\
    (S i < length (chunks size l) -> length b = size)%nat.
Proof.
  intros Hsize. remember (length l) as m eqn:Hm.
  revert l Hm. induction m as [m IH] using lt_wf_ind. intros l -> i b Hb.
  destruct l as [|x l]; [done|].
  rewrite chunks_cons in * by done.
  assert (length (drop size (x :: l)) < length (x :: l))%nat as Hlt.
  { rewrite length_drop. cbn [length]. lia. }
  destruct i as [|i].
  - injection Hb as <-. rewrite length_take. split; [cbn [length]; lia|].
    cbn [length]. intros Hmore.
    destruct (drop size (x :: l)) as [|y l'] eqn:Hd;
      [cbn [length chunks chunks_upto] in Hmore; lia|].
    assert (length (drop size (x :: l)) = S (length l')) as Hl by by rewrite Hd.
    rewrite length_drop in Hl. cbn [length] in Hl. lia.
  - cbn in Hb. destruct (IH _ Hlt _ eq_refl i b Hb) as [H1 H2].
    split; [done|]. cbn [length]. intros Hmore. apply H2. lia.
Qed.

Lemma num_batches_lt len b :
  (b < (len + ITEMS_PER_FETCH - 1) / ITEMS_PER_FETCH
   <-> b * ITEMS_PER_FETCH < len)%nat.
Proof.
  unfold ITEMS_PER_FETCH.
  pose proof (Nat.div_mod_eq (len + 10 - 1) 10).
  pose proof (Nat.mod_upper_bound (len + 10 - 1) 10). lia.
Qed.

Lemma py_slice_batch {A} (l : list A) b :
  py_slice l (b * ITEMS_PER_FETCH)
    (Nat.min (b * ITEMS_PER_FETCH + ITEMS_PER_FETCH) (length l))
  = take ITEMS_PER_FETCH (drop (b * ITEMS_PER_FETCH) l).
Proof.
  unfold py_slice.
  destruct (decide (b * ITEMS_PER_FETCH + ITEMS_PER_FETCH <= length l)%nat).
  - f_equal. batch_arith.
  - rewrite !take_ge; [done| |]; rewrite length_drop; batch_arith.
Qed.

Lemma extend_with_batch_app all_items batch_data :
  extend_with_batch all_items batch_data = all_items ++ batch_items batch_data.
Proof.
  unfold batch_items, extend_with_batch.
  destruct batch_data as [[[[|x l]|]]|]; simpl; by rewrite ?app_nil_r.
Qed.

Lemma chunks_eq_nil {A} size (l : list A) :
  (0 < size)%nat -> chunks size l = [] <-> l = [].
Proof.
  intros Hsize. split; [|by intros ->].
  destruct l; [done|]. by rewrite chunks_cons.
Qed.

(** The loop of the source computes what the specification describes. *)
Lemma fetch_loop_chunks env fuel item_ids query_id r : forall b all_items w,
  (b + r = (length item_ids + ITEMS_PER_FETCH - 1) / ITEMS_PER_FETCH)%nat ->
  fetch_loop env fuel item_ids query_id
    ((length item_ids + ITEMS_PER_FETCH - 1) / ITEMS_PER_FETCH)
    (seq b r) all_items w
  = bind (fetch_batches env fuel query_id
            (chunks ITEMS_PER_FETCH (drop (b * ITEMS_PER_FETCH) item_ids)))
      (fun later => ret (all_items ++ later)) w.
Proof.
  set (nb := ((length item_ids + ITEMS_PER_FETCH - 1) / ITEMS_PER_FETCH)%nat).
  induction r as [|r IH]; intros b all_items w Hb.
  - assert (~ (b < nb)%nat) as Hge by batch_arith.
    unfold nb in Hge. rewrite num_batches_lt in Hge.
    rewrite drop_ge by batch_arith. cbn. unfold bind, ret. by rewrite app_nil_r.
  - assert (b < nb)%nat as Hlt by batch_arith.
    unfold nb in Hlt. rewrite num_batches_lt in Hlt.
    assert (drop (b * ITEMS_PER_FETCH) item_ids <> []) as Hne.
    { intros Hd. apply (f_equal length) in Hd.
      rewrite length_drop in Hd. simpl in Hd. batch_arith. }
    rewrite chunks_cons by (done || batch_arith).
    rewrite drop_drop.
    replace (b * ITEMS_PER_FETCH + ITEMS_PER_FETCH)%nat
      with (S b * ITEMS_PER_FETCH)%nat by batch_arith.
    cbn [seq fetch_loop fetch_batches]. rewrite py_slice_batch.
    unfold bind at 1 3 4.
    destruct (fetch_items_batch env fuel _ query_id w) as [data w1|e w1|];
      [|done|done].
    assert ((b <? nb - 1)%nat = true <->
            chunks ITEMS_PER_FETCH (drop (S b * ITEMS_PER_FETCH) item_ids)
            <> []) as Hsleep.
    { rewrite chunks_eq_nil by batch_arith.
      rewrite Nat.ltb_lt. split.
      - intros Hb1 Hd. apply (f_equal length) in Hd.
        rewrite length_drop in Hd. simpl in Hd.
        assert (S b < nb)%nat as HS by batch_arith.
        unfold nb in HS. rewrite num_batches_lt in HS. batch_arith.
      - intros Hd. assert (S b < nb)%nat; [|batch_arith].
        unfold nb. rewrite num_batches_lt.
        destruct (decide (S b * ITEMS_PER_FETCH < length item_ids)%nat);
          [done|].
        exfalso. apply Hd. apply drop_ge. batch_arith. }
    fold nb.
    destruct (chunks ITEMS_PER_FETCH (drop (S b * ITEMS_PER_FETCH) item_ids))
      as [|c cs] eqn:Hchunks.
    + destruct (b <? nb - 1)%nat eqn:Hcond.
      { exfalso. by apply Hsleep. }
      unfold bind at 1. unfold ret at 1.
      rewrite IH by batch_arith. rewrite Hchunks. cbn. unfold bind, ret.
      by rewrite extend_with_batch_app, !app_nil_r.
    + destruct (b <? nb - 1)%nat eqn:Hcond.
      2:{ destruct Hsleep as [_ Hs]. by discriminate Hs. }
      unfold bind at 1. unfold sleep at 1.
      rewrite IH by batch_arith. rewrite Hchunks.
      unfold bind, sleep. cbv beta iota.
      destruct (fetch_batches env fuel query_id (c :: cs) _)
        as [later w2|e w2|]; [|done|done].
      unfold ret.
      by rewrite extend_with_batch_app, <- app_assoc.
Qed.

Lemma bind_ret_r {A} (m : M A) w : bind m ret w = m w.
Proof. unfold bind, ret. by destruct (m w). Qed.

Lemma bind_assoc {A B C} (m : M A) (f : A -> M B) (g : B -> M C) w :
  bind (bind m f) g w = bind m (fun a => bind (f a) g) w.
Proof. unfold bind. by destruct (m w). Qed.

Lemma bind_ext {A B} (m : M A) (f g : A -> M B) w :
  (forall a w', f a w' = g a w') -> bind m f w = bind m g w.
Proof. intros H. unfold bind. by destruct (m w). Qed.

Lemma fetch_all_chunks env fuel item_ids query_id w :
  fetch_all env fuel item_ids query_id w
  = fetch_batches env fuel query_id (chunks ITEMS_PER_FETCH item_ids) w.
Proof.
  unfold fetch_all. rewrite fetch_loop_chunks by lia.
  cbn [Nat.mul drop app]. apply bind_ret_r.
Qed.

Lemma writes_phase_trace query_id batches : forall retries,
  writes (phase_trace query_id batches retries) = [].
Proof.
  induction batches as [|b bs IH]; intros [|k ks]; try done.
  cbn [phase_trace]. rewrite writes_app, writes_retry_trace by done.
  destruct bs; [done|]. cbn [writes app]. apply IH.
Qed.

Lemma batch_items_length env n ids query_id :
  honest_fetch env ->
  (length (batch_items (fetch_answer (fetch_api env n ids query_id)))
   <= length ids)%nat.
Proof.
  intros Hhonest. unfold batch_items, fetch_answer.
  destruct (fetch_api env n ids query_id) as [s body|] eqn:E; simpl; [|lia].
  destruct (s =? 200); simpl; [|lia].
  destruct body as [[[records|]]|]; simpl; try lia.
  exact (Hhonest _ _ _ _ _ E).
Qed.

Lemma answer_records_batch_items r :
  batch_items (fetch_answer r) = answer_records r.
Proof.
  destruct r as [s [data|]|]; cbn; [by destruct (s =? 200)..|done].
Qed.

Lemma retry_trace_Forall (P : event -> Prop) e k :
  P e -> P (EvSleep 60) -> Forall P (retry_trace e k).
Proof.
  intros He Hs. induction k as [|k IH].
  - apply Forall_cons. split; [done|apply Forall_nil_2].
  - rewrite retry_trace_S. cbn [app]. by repeat (apply Forall_cons; split).
Qed.

Lemma phase_trace_Forall (P : event -> Prop) query_id batches :
  (forall b, P (EvFetch b query_id)) -> (forall s, P (EvSleep s)) ->
  forall retries, Forall P (phase_trace query_id batches retries).
Proof.
  intros Hf Hs. induction batches as [|b bs IH]; intros [|k ks];
    try apply Forall_nil_2.
  cbn [phase_trace]. apply Forall_app. split; [by apply retry_trace_Forall|].
  destruct bs; [apply Forall_nil_2|]. apply Forall_cons. split; [done|apply IH].
Qed.

Lemma count_app p t1 t2 : count p (t1 ++ t2) = (count p t1 + count p t2)%nat.
Proof. unfold count. by rewrite List.filter_app, length_app. Qed.

Lemma count_none p t : Forall (fun e => p e = false) t -> count p t = O.
Proof.
  unfold count. induction 1 as [|e t He _ IH]; [done|].
  cbn [List.filter]. by rewrite He.
Qed.

Lemma count_retry_trace_fetch b query_id k :
  count is_fetch (retry_trace (EvFetch b query_id) k) = S k /\
  count is_delay (retry_trace (EvFetch b query_id) k) = O.
Proof.
  induction k as [|k [IH1 IH2]]; [done|].
  rewrite retry_trace_S, !count_app, IH1, IH2. done.
Qed.

(** In the trace of the phase every batch is requested once, plus once for
    each 429 it was answered, and the delay is slept between consecutive
    batches. *)
Lemma count_phase_trace query_id batches : forall retries,
  length retries = length batches ->
  count is_fetch (phase_trace query_id batches retries)
  = (length batches + sum_list retries)%nat /\
  count is_delay (phase_trace query_id batches retries)
  = (length batches - 1)%nat.
Proof.
  induction batches as [|b bs IH]; intros [|k ks] Hlen; try done.
  cbn [phase_trace]. rewrite !count_app.
  destruct (count_retry_trace_fetch b query_id k) as [-> ->].
  destruct bs as [|b' bs'].
  - destruct ks; [|done]. cbn. split; lia.
  - destruct (IH ks) as [IH1 IH2]; [by injection Hlen|].
    change (count is_fetch (EvSleep DELAY_BETWEEN_FETCHES :: ?t))
      with (count is_fetch t).
    change (count is_delay (EvSleep DELAY_BETWEEN_FETCHES
                            :: phase_trace query_id (b' :: bs') ks))
      with (S (count is_delay (phase_trace query_id (b' :: bs') ks))).
    rewrite IH1, IH2. cbn [length sum_list_with]. unfold id. split; lia.
Qed.

Section FetchPhase.

Variable env : Environment.
Variable K : nat.
Hypothesis Hbounded : rate_limit_bounded env K.

Lemma fetch_batches_runs fuel query_id batches : forall w,
  (K <= fuel)%nat ->
  Forall (fun b => b <> [] /\ (length b <= ITEMS_PER_FETCH)%nat) batches ->
  exists all_items retries w',
    runs (fetch_batches env fuel query_id batches) w all_items
      (phase_trace query_id batches retries) w' /\
    length retries = length batches /\
    Forall (fun k => (k < K)%nat) retries /\
    (honest_fetch env ->
     (length all_items <= length (concat batches))%nat).
Proof.
  induction batches as [|b bs IH]; intros w Hfuel Hok.
  - exists [], [], w. split; [apply runs_ret|]. repeat split; auto.
  - apply Forall_cons in Hok as [[Hne Hlen] Hok].
    destruct (fetch_items_batch_runs env K Hbounded fuel b query_id w Hfuel Hne)
      as (k & w1 & Hk & Hrun1).
    rewrite (take_ge b) in Hrun1 by done.
    set (w2 := match bs with [] => w1 | _ => log (EvSleep DELAY_BETWEEN_FETCHES) w1 end).
    destruct (IH w2 Hfuel Hok) as (later & ks & w3 & Hrun3 & Hks & HK & Hcount).
    eexists _, (k :: ks), w3. split; [|repeat split].
    + cbn [fetch_batches phase_trace].
      eapply runs_bind; [exact Hrun1|].
      destruct bs as [|b' bs'].
      * replace (@nil event) with (@nil event ++ ([] ++ [])) by done.
        eapply runs_bind; [apply runs_ret|].
        eapply runs_bind; [|apply runs_ret].
        destruct ks; [|done]. exact Hrun3.
      * change (EvSleep DELAY_BETWEEN_FETCHES
                  :: phase_trace query_id (b' :: bs') ks)
          with ([EvSleep DELAY_BETWEEN_FETCHES]
                  ++ phase_trace query_id (b' :: bs') ks).
        eapply runs_bind; [apply runs_sleep|].
        rewrite <- (app_nil_r (phase_trace _ _ _)).
        eapply runs_bind; [exact Hrun3|apply runs_ret].
    + simpl. by rewrite Hks.
    + by constructor.
    + intros Hhonest. cbn [concat]. rewrite !length_app.
      pose proof (batch_items_length env (requests w + k) b query_id Hhonest).
      specialize (Hcount Hhonest). lia.
Qed.

(** The same run, with what it returns: the records of the answers that
    end the retries, batch after batch. *)
Lemma fetch_batches_answers fuel query_id batches : forall w,
  (K <= fuel)%nat ->
  Forall (fun b => b <> [] /\ (length b <= ITEMS_PER_FETCH)%nat) batches ->
  exists retries w',
    fetch_batches env fuel query_id batches w
    = Ret (concat (map answer_records
                     (phase_answers env (requests w) query_id batches
                        retries))) w' /\
    length retries = length batches /\
    Forall (fun k => (k < K)%nat) retries /\
    trace w' = trace w ++ phase_trace query_id batches retries /\
    fs w' = fs w /\
    Forall (fun r => is_429 r = false)
      (phase_answers env (requests w) query_id batches retries) /\
    requests w' = (requests w + length batches + sum_list retries)%nat.
Proof.
  induction batches as [|b bs IH]; intros w Hfuel Hok.
  - exists [], w. cbn. rewrite app_nil_r, !Nat.add_0_r.
    repeat split; auto.
  - apply Forall_cons in Hok as [[Hne Hlen] Hok].
    destruct (first_answer
                (fun j => fetch_api env (requests w + j)
                            (take ITEMS_PER_FETCH b) query_id) K)
      as (k & Hk & Hans & Hbusy); [apply (proj2 Hbounded)|].
    pose proof (fetch_retry env fuel b query_id k w Hne ltac:(lia) Hbusy Hans)
      as Hrun1.
    rewrite (take_ge b) in Hrun1, Hans by done.
    set (w1 := mkWorld (fs w) (requests w + k + 1) (clock_reads w)
                 (trace w ++ retry_trace (EvFetch b query_id) k)) in Hrun1.
    set (w2 := match bs with
               | [] => w1
               | _ => log (EvSleep DELAY_BETWEEN_FETCHES) w1
               end).
    assert (requests w2 = (requests w + k + 1)%nat /\ fs w2 = fs w /\
            trace w2 = trace w ++ retry_trace (EvFetch b query_id) k
                       ++ match bs with
                          | [] => []
                          | _ => [EvSleep DELAY_BETWEEN_FETCHES]
                          end) as (Hreq2 & Hfs2 & Ht2).
    { unfold w2. destruct bs; cbn; rewrite ?app_nil_r, <- ?app_assoc; done. }
    destruct (IH w2 Hfuel Hok)
      as (ks & w3 & Hrun3 & Hks & HK & Ht3 & Hfs3 & Hans3 & Hreq3).
    rewrite Hreq2 in Hrun3, Hans3, Hreq3.
    exists (k :: ks), w3. split; [|repeat split].
    + cbn [fetch_batches phase_answers map concat].
      unfold bind at 1. rewrite Hrun1.
      assert (bind (match bs with
                    | [] => ret tt
                    | _ => sleep DELAY_BETWEEN_FETCHES
                    end)
                (fun _ => bind (fetch_batches env fuel query_id bs)
                            (fun later =>
                               ret (batch_items
                                      (fetch_answer
                                         (fetch_api env (requests w + k) b
                                            query_id)) ++ later))) w1
              = bind (fetch_batches env fuel query_id bs)
                  (fun later =>
                     ret (batch_items
                            (fetch_answer
                               (fetch_api env (requests w + k) b query_id))
                          ++ later)) w2) as ->
        by (unfold w2; by destruct bs).
      unfold bind. rewrite Hrun3. unfold ret.
      by rewrite answer_records_batch_items.
    + cbn [length]. by rewrite Hks.
    + by apply Forall_cons.
    + rewrite Ht3, Ht2. cbn [phase_trace]. rewrite <- !app_assoc.
      do 2 f_equal. destruct bs as [|b' bs']; [by destruct ks|done].
    + by rewrite Hfs3.
    + cbn [phase_answers]. by apply Forall_cons.
    + rewrite Hreq3. cbn [length sum_list_with]. unfold id. lia.
Qed.

End FetchPhase.

(** C8. The fetch phase of [scrape_category] on any list of ids: the loop of
    the source is the batch-by-batch procedure [fetch_batches] over
    [chunks 10 item_ids].  The batches are consecutive pieces of the list,
    each of 10 ids except possibly the last, which has between 1 and 10; the
    fetch client is called once per batch, in order; and the inter-batch
    delay is slept after every batch except the last.  Under a bounded rate
    limit the phase returns, and its actions are exactly the request of each
    batch (sent again only after a 429), separated by the delay: as many
    requests as batches plus 429 answers received, one delay less than
    batches, and no write.  What it returns is the concatenation, in batch
    order, of the records of the answers that ended the retries of the
    batches: the [result] of each decoded 200, nothing for any other
    answer. *)
Theorem fetch_phase_in_batches env K fuel item_ids query_id w
    (Hbounded : rate_limit_bounded env K) (Hfuel : (K <= fuel)%nat) :
  let batches := chunks ITEMS_PER_FETCH item_ids in
  concat batches = item_ids /\
  (forall i b, batches !! i = Some b ->
     (1 <= length b <= 10)%nat /\
     (S i < length batches -> length b = 10)%nat) /\
  fetch_all env fuel item_ids query_id w
  = fetch_batches env fuel query_id batches w /\
  exists all_items retries w',
    fetch_all env fuel item_ids query_id w = Ret all_items w' /\
    length retries = length batches /\
    Forall (fun k => (k < K)%nat) retries /\
    trace w' = trace w ++ phase_trace query_id batches retries /\
    count is_fetch (phase_trace query_id batches retries)
    = (length batches + sum_list retries)%nat /\
    count is_delay (phase_trace query_id batches retries)
    = (length batches - 1)%nat /\
    count is_write (phase_trace query_id batches retries) = O /\
    fs w' = fs w /\
    all_items
    = concat (map answer_records
                (phase_answers env (requests w) query_id batches retries)) /\
    length (phase_answers env (requests w) query_id batches retries)
    = length batches /\
    Forall (fun r => is_429 r = false)
      (phase_answers env (requests w) query_id batches retries) /\
    requests w' = (requests w + length batches + sum_list retries)%nat.
Proof.
  intros batches.
  assert (0 < ITEMS_PER_FETCH)%nat as Hpos by (unfold ITEMS_PER_FETCH; lia).
  split; [by apply chunks_concat|].
  split; [by apply chunks_sizes|].
  split; [apply fetch_all_chunks|].
  destruct (fetch_batches_answers env K Hbounded fuel query_id batches w
              Hfuel)
    as (retries & w' & Hrun & Hlen & HK & Ht & Hfs & Hans & Hreq).
  { apply Forall_lookup_2. intros i b Hb.
    destruct (chunks_sizes _ item_ids Hpos i b Hb) as [[H1 H2] _].
    split; [|done]. intros ->. simpl in H1. lia. }
  eexists _, retries, w'.
  rewrite fetch_all_chunks.
  destruct (count_phase_trace query_id batches retries Hlen) as [Hf Hd].
  do 6 (split; [done|]). split.
  { apply count_none. by apply phase_trace_Forall. }
  do 2 (split; [done|]). split; [|done].
  clear -Hlen. revert retries Hlen. generalize (requests w).
  induction batches as [|b bs IH]; intros n [|k ks] Hlen; try done.
  cbn [phase_answers length]. f_equal. apply IH.
  cbn [length] in Hlen. lia.
Qed.

(** ** Category pipeline *)

Lemma retry_trace_searches filters k :
  Forall (fun e => e = EvSearch filters \/ e = EvSleep 60)
    (retry_trace (EvSearch filters) k).
Proof.
  induction k as [|k IH].
  - apply Forall_cons. split; [by left|apply Forall_nil_2].
  - rewrite retry_trace_S. cbn [app].
    apply Forall_cons. split; [by left|].
    apply Forall_cons. split; [by right|done].
Qed.


(** What a search that has returned has done: either it was answered, after
    [k] cooldowns, or it gave up after [k] of them. *)
Lemma search_inv env fuel filters name : forall w v w1,
  search_items_with_filters env fuel filters name w = Ret v w1 ->
  exists k,
    fs w1 = fs w /\ clock_reads w1 = clock_reads w /\
    (v = search_answer (search_api env (requests w + k) filters) /\
     trace w1 = trace w ++ retry_trace (EvSearch filters) k
     \/
     v = ([], EmptyString, 0) /\
     trace w1 = trace w ++ busy_trace (EvSearch filters) k).
Proof.
  intros w v w1 Hrun.
  destruct (search_cases env fuel filters name w)
    as (k & v' & w' & Hrun' & Hfs & Hclk & Hcase).
  rewrite Hrun in Hrun'. injection Hrun' as <- <-.
  exists k. do 2 (split; [done|]).
  destruct Hcase as [(_ & Hv & Ht)|(-> & Hv & Ht)]; [by left|by right].
Qed.


Lemma scrape_category_unfold env fuel category_name filters subdivide_if_full :
  scrape_category env (S fuel) category_name filters subdivide_if_full =
  bind (search_items_with_filters env (S fuel) filters category_name)
    (fun '(item_ids, query_id, total) =>
       match item_ids with
       | [] => ret []
       | _ =>
           if (100 <=? length item_ids)%nat && (100 <? total)
              && subdivide_if_full
           then scrape_with_subdivision env fuel category_name filters total
           else
             bind (fetch_all env (S fuel) item_ids query_id)
               (fun all_items =>
                  bind (save_category env category_name all_items)
                    (fun _ => ret all_items))
       end).
Proof. reflexivity. Qed.

Lemma scrape_with_subdivision_unfold env fuel category_name filters total :
  scrape_with_subdivision env (S fuel) category_name filters total =
  bind (subdivision_loop (scrape_category env fuel) category_name filters
          level_ranges [])
    (fun all_items_combined =>
       bind (save_combined env category_name all_items_combined)
         (fun _ => ret all_items_combined)).
Proof. reflexivity. Qed.

(** The search comes first, whatever room the stack has. *)
Lemma scrape_category_search env fuel category_name filters subdivide_if_full :
  scrape_category env fuel category_name filters subdivide_if_full =
  bind (search_items_with_filters env fuel filters category_name)
    (fun '(item_ids, query_id, total) =>
       match item_ids with
       | [] => ret []
       | _ =>
           if (100 <=? length item_ids)%nat && (100 <? total)
              && subdivide_if_full
           then
             match fuel with
             | O => fun _ => OutOfFuel
             | S fuel' =>
                 scrape_with_subdivision env fuel' category_name filters total
             end
           else
             bind (fetch_all env fuel item_ids query_id)
               (fun all_items =>
                  bind (save_category env category_name all_items)
                    (fun _ => ret all_items))
       end).
Proof. by destruct fuel. Qed.

Lemma scrape_category_no_ids env fuel name filters subdivide_if_full w q total w1 :
  search_items_with_filters env fuel filters name w = Ret ([], q, total) w1 ->
  scrape_category env fuel name filters subdivide_if_full w = Ret [] w1.
Proof.
  intros Hrun. rewrite scrape_category_search. unfold bind. by rewrite Hrun.
Qed.

(** C7. A category whose search returns no ids ends early: from the search
    on, [scrape_category] does nothing more (its actions are the search
    request and its cooldown sleeps, whether the search was answered or gave
    up for lack of stack: no fetch, no write), it returns no items, and the session step still adds the category to
    [completed_categories] and persists the progress, which is the only file
    written; [seen_item_ids] is unchanged. *)
Theorem zero_ids_completes_category env fuel name filters w q total w1
    (Hsearch : search_items_with_filters env fuel filters name (tick w)
               = Ret ([], q, total) w1) :
  scrape_category env fuel name filters true (tick w) = Ret [] w1 /\
  (exists k,
     trace w1 = trace w ++ retry_trace (EvSearch filters) k \/
     trace w1 = trace w ++ busy_trace (EvSearch filters) k) /\
  fs w1 = fs w /\
  forall num_categories cat_num st,
  exists w2,
    let st' := mkSession (completed st ∪ {[name]}) (seen st)
                 (all_items_collected st) in
    let doc := progress_doc (completed st') (seen st')
                 (clock env (clock_reads w1)) in
    process_category env fuel num_categories cat_num name filters st w
    = Ret st' w2 /\
    trace w2 = trace w1 ++ EvWrite PROGRESS_FILE doc ::
               (if (cat_num <? num_categories)%nat
                then [EvSleep DELAY_BETWEEN_SEARCHES] else []) /\
    fs w2 = fs_write PROGRESS_FILE doc (fs w) /\
    load_progress w2 = Ret (completed st', seen st') w2 /\
    (forall rest, name ∉ completed st ->
       session_loop env fuel num_categories cat_num ((name, filters) :: rest)
         st w
       = session_loop env fuel num_categories (S cat_num) rest st' w2).
Proof.
  pose proof (scrape_category_no_ids _ _ _ _ true _ _ _ _ Hsearch) as Hscrape.
  destruct (search_inv _ _ _ _ _ _ _ Hsearch) as (k & Hfs & _ & Hcase).
  split; [done|].
  split; [exists k; destruct Hcase as [[_ Ht]|[_ Ht]]; [by left|by right]|].
  split; [done|].
  intros num_categories cat_num st.
  set (doc := progress_doc (completed st ∪ {[name]}) (seen st)
                (clock env (clock_reads w1))).
  set (w_saved := mkWorld (fs_write PROGRESS_FILE doc (fs w1)) (requests w1)
                    (S (clock_reads w1))
                    (trace w1 ++ [EvWrite PROGRESS_FILE doc])).
  exists (if (cat_num <? num_categories)%nat
          then log (EvSleep DELAY_BETWEEN_SEARCHES) w_saved else w_saved).
  cbn zeta. cbn [completed seen]. fold doc.
  assert (process_category env fuel num_categories cat_num name filters st w
          = Ret (mkSession (completed st ∪ {[name]}) (seen st)
                   (all_items_collected st))
              (if (cat_num <? num_categories)%nat
               then log (EvSleep DELAY_BETWEEN_SEARCHES) w_saved
               else w_saved)) as Hstep.
  { unfold process_category. unfold bind at 1. unfold now at 1.
    unfold bind at 1. rewrite Hscrape. cbn [foldl].
    unfold bind, save_progress, now, write_file, sleep, ret, bind.
    by destruct (cat_num <? num_categories)%nat. }
  split; [exact Hstep|].
  split; [by destruct (cat_num <? num_categories)%nat;
             cbn [trace log w_saved]; rewrite <- ?app_assoc|].
  split; [by destruct (cat_num <? num_categories)%nat;
             cbn [fs log w_saved]; rewrite Hfs|].
  split.
  - unfold load_progress.
    assert (fs (if (cat_num <? num_categories)%nat
                then log (EvSleep DELAY_BETWEEN_SEARCHES) w_saved
                else w_saved) = fs_write PROGRESS_FILE doc (fs w1)) as ->
      by by destruct (cat_num <? num_categories)%nat.
    rewrite fs_lookup_write_eq. unfold doc, progress_doc. cbn.
    by rewrite !list_to_set_elements_L.
  - intros rest Hnew. cbn [session_loop].
    rewrite bool_decide_eq_false_2 by done.
    unfold bind at 1. by rewrite Hstep.
Qed.

Lemma chunks_wellformed (item_ids : list string) :
  Forall (fun b => b <> [] /\ (length b <= ITEMS_PER_FETCH)%nat)
    (chunks ITEMS_PER_FETCH item_ids).
Proof.
  assert (0 < ITEMS_PER_FETCH)%nat as Hpos by (unfold ITEMS_PER_FETCH; lia).
  apply Forall_lookup_2. intros i b Hb.
  destruct (chunks_sizes _ item_ids Hpos i b Hb) as [[H1 H2] _].
  split; [|done]. intros ->. simpl in H1. lia.
Qed.

Section Category.

Variable env : Environment.
Variable K : nat.
Hypothesis Hbounded : rate_limit_bounded env K.

(** The pipeline of a category that is not subdivided: fetch in batches,
    then save. *)
Lemma scrape_category_leaf fuel name filters flag w ids q total w1 :
  (K <= fuel)%nat ->
  search_items_with_filters env fuel filters name w = Ret (ids, q, total) w1 ->
  (100 <=? length ids)%nat && (100 <? total) && flag = false ->
  exists all_items tf w',
    scrape_category env fuel name filters flag w = Ret all_items w' /\
    trace w' = trace w1 ++ tf /\ fs w' = replay tf (fs w1) /\
    Forall (fun e => is_search e = false) tf /\
    (exists ts, writes tf = saved_file name ".json" false ts all_items) /\
    (honest_fetch env -> (length all_items <= length ids)%nat).
Proof.
  intros Hfuel Hsearch Hcond.
  rewrite scrape_category_search. unfold bind at 1. rewrite Hsearch.
  destruct ids as [|i ids'].
  - exists [], [], w1. rewrite app_nil_r.
    repeat split; try done. by exists EmptyString.
  - rewrite Hcond. set (ids := i :: ids') in *.
    destruct (fetch_batches_runs env K Hbounded fuel q
                (chunks ITEMS_PER_FETCH ids) w1 Hfuel
                (chunks_wellformed ids))
      as (all_items & retries & w2 & (Hrun & Ht & Hfs) & _ & _ & Hcount).
    rewrite <- fetch_all_chunks in Hrun.
    assert (Forall (fun e => is_search e = false)
              (phase_trace q (chunks ITEMS_PER_FETCH ids) retries)) as Hns
      by by apply phase_trace_Forall.
    assert (honest_fetch env -> (length all_items <= length ids)%nat) as Hlen.
    { intros Hh. specialize (Hcount Hh).
      rewrite chunks_concat in Hcount by (unfold ITEMS_PER_FETCH; lia).
      done. }
    unfold bind at 1. rewrite Hrun.
    destruct all_items as [|x xs].
    + exists [], (phase_trace q (chunks ITEMS_PER_FETCH ids) retries), w2.
      repeat split; try done.
      exists EmptyString. by rewrite writes_phase_trace.
    + set (all_items := x :: xs) in *.
      set (doc := FCategory (mkCategoryDoc name (length all_items) false
                               (clock env (clock_reads w2)) all_items)).
      exists all_items,
        (phase_trace q (chunks ITEMS_PER_FETCH ids) retries
         ++ [EvWrite (safe_name name +:+ ".json") doc]),
        (mkWorld (fs_write (safe_name name +:+ ".json") doc (fs w2))
           (requests w2) (S (clock_reads w2))
           (trace w2 ++ [EvWrite (safe_name name +:+ ".json") doc])).
      split; [reflexivity|].
      cbn [trace fs]. split; [by rewrite Ht, <- app_assoc|].
      split; [by rewrite replay_app, <- Hfs|].
      split; [apply Forall_app; split; [done|by repeat constructor]|].
      split; [|done].
      exists (clock env (clock_reads w2)).
      by rewrite writes_app, writes_phase_trace.
Qed.

End Category.


Section Subdivision.

Variable env : Environment.
Variable K : nat.
Hypothesis Hbounded : rate_limit_bounded env K.

(** With subdivision disabled the pipeline always returns, having searched
    for the category only and written at most its own file. *)
Lemma scrape_category_disabled fuel name filters w :
  (K <= fuel)%nat ->
  exists all_items t w' ts,
    scrape_category env fuel name filters false w = Ret all_items w' /\
    trace w' = trace w ++ t /\ fs w' = replay t (fs w) /\
    Forall (fun e => is_search e = true -> e = EvSearch filters) t /\
    writes t = saved_file name ".json" false ts all_items.
Proof.
  intros Hfuel.
  destruct (search_runs env K Hbounded fuel filters name w Hfuel)
    as (k & w1 & _ & Hrun1 & Ht1 & Hfs1).
  destruct (search_answer _) as [[ids q] total].
  destruct (scrape_category_leaf env K Hbounded fuel name filters false
              w ids q total w1 Hfuel Hrun1)
    as (all_items & tf & w' & Hrun & Ht & Hfs & Hns & [ts Hw] & _).
  { by rewrite andb_false_r. }
  exists all_items, (retry_trace (EvSearch filters) k ++ tf), w', ts.
  split; [done|]. split; [by rewrite Ht, Ht1, app_assoc|].
  split; [by rewrite replay_app, Hfs, Hfs1|].
  split.
  - apply Forall_app. split.
    + eapply Forall_impl; [apply retry_trace_searches|].
      intros e [->| ->]; [done|discriminate].
    + eapply Forall_impl; [exact Hns|]. intros e He He'. congruence.
  - by rewrite writes_app, writes_retry_trace.
Qed.

Lemma subdivision_loop_runs fuel name filters ranges : forall acc w,
  (K <= fuel)%nat ->
  exists parts stamps t w',
    subdivision_loop (scrape_category env fuel) name filters ranges acc w
    = Ret (acc ++ concat parts) w' /\
    sub_scrapes env fuel name filters ranges w parts w' /\
    length parts = length ranges /\
    trace w' = trace w ++ t /\ fs w' = replay t (fs w) /\
    writes t = sub_files name ranges parts stamps /\
    Forall (fun e => is_search e = true ->
              exists r, r ∈ ranges /\
                        e = EvSearch (with_ilvl filters r.1 r.2)) t.
Proof.
  induction ranges as [|[mn mx] ranges IH]; intros acc w Hfuel.
  - exists [], [], [], w. rewrite !app_nil_r.
    repeat split; try done. constructor.
  - destruct (scrape_category_disabled fuel (sub_category_name name mn mx)
                (with_ilvl filters mn mx) w Hfuel)
      as (sub_items & t1 & w1 & ts & Hrun1 & Ht1 & Hfs1 & Hs1 & Hw1).
    destruct (IH (acc ++ sub_items) (log (EvSleep 2) w1) Hfuel)
      as (parts & stamps & t2 & w2 & Hrun2 & Hsub & Hlen & Ht2 & Hfs2
          & Hw2 & Hs2).
    exists (sub_items :: parts), (ts :: stamps),
      (t1 ++ EvSleep 2 :: t2), w2.
    split.
    { cbn [subdivision_loop]. unfold bind at 1. rewrite Hrun1.
      unfold bind at 1. unfold sleep at 1. rewrite Hrun2.
      cbn [concat]. by rewrite app_assoc. }
    split; [by econstructor|].
    split; [by cbn [length]; rewrite Hlen|].
    split; [by rewrite Ht2; cbn [log trace]; rewrite Ht1, <- !app_assoc|].
    split; [by rewrite Hfs2; cbn [log fs]; rewrite replay_app, Hfs1|].
    split; [by rewrite writes_app; cbn [writes sub_files]; rewrite Hw1, Hw2|].
    apply Forall_app. split.
    + eapply Forall_impl; [exact Hs1|]. intros e He Hse.
      exists (mn, mx). split; [by left|]. by apply He.
    + apply Forall_cons. split; [done|].
      eapply Forall_impl; [exact Hs2|]. intros e He Hse.
      destruct (He Hse) as (r & Hr & ->). exists r. split; [by right|done].
Qed.

End Subdivision.

Lemma concat_length_sum {A} (parts : list (list A)) :
  length (concat parts) = sum_list_with length parts.
Proof.
  induction parts as [|p parts IH]; [done|].
  cbn [concat sum_list_with]. by rewrite length_app, IH.
Qed.

(** The pipeline of a category that is subdivided. *)
Lemma scrape_category_subdivided env K fuel name filters w ids q total w1
    (Hbounded : rate_limit_bounded env K) (Hfuel : (K + 2 <= fuel)%nat)
    (Hsearch : search_items_with_filters env fuel filters name w
               = Ret (ids, q, total) w1)
    (Hfull : (100 <= length ids)%nat) (Htotal : 100 < total) :
  exists parts stamps ts t w2 w',
    scrape_category env fuel name filters true w = Ret (concat parts) w' /\
    sub_scrapes env (fuel - 2) name filters level_ranges w1 parts w2 /\
    length parts = 10%nat /\
    trace w' = trace w1 ++ t /\ fs w' = replay t (fs w1) /\
    writes t = sub_files name level_ranges parts stamps
               ++ saved_file name "_COMBINED.json" true ts (concat parts) /\
    length (concat parts) = sum_list_with length parts /\
    Forall (fun e => is_search e = true ->
              exists r, r ∈ level_ranges /\
                        e = EvSearch (with_ilvl filters r.1 r.2)) t.
Proof.
  destruct fuel as [|[|fuel]]; [lia|lia|].
  replace (S (S fuel) - 2)%nat with fuel by lia.
  destruct (subdivision_loop_runs env K Hbounded fuel name filters
              level_ranges [] w1 ltac:(lia))
    as (parts & stamps & t & w2 & Hloop & Hsub & Hlen & Ht & Hfs & Hw & Hs).
  cbn [app] in Hloop.
  assert (scrape_category env (S (S fuel)) name filters true w
          = bind (save_combined env name (concat parts))
              (fun _ => ret (concat parts)) w2) as Hrun.
  { rewrite scrape_category_unfold. unfold bind at 1.
    rewrite Hsearch.
    destruct ids as [|i ids']; [simpl in Hfull; lia|].
    replace ((100 <=? length (i :: ids'))%nat) with true
      by (symmetry; by apply Nat.leb_le).
    replace (100 <? total) with true by (symmetry; by apply Z.ltb_lt).
    cbn [andb]. rewrite scrape_with_subdivision_unfold.
    unfold bind at 1. by rewrite Hloop. }
  destruct (concat parts) as [|x xs] eqn:Hall.
  - exists parts, stamps, EmptyString, t, w2, w2. rewrite Hall.
    split; [by rewrite Hrun|]. split; [done|]. split; [done|].
    split; [done|]. split; [done|]. split; [by rewrite app_nil_r|].
    split; [by rewrite <- concat_length_sum, Hall|done].
  - set (doc := FCategory (mkCategoryDoc name (length (x :: xs)) true
                             (clock env (clock_reads w2)) (x :: xs))).
    exists parts, stamps, (clock env (clock_reads w2)),
      (t ++ [EvWrite (safe_name name +:+ "_COMBINED.json") doc]), w2,
      (mkWorld (fs_write (safe_name name +:+ "_COMBINED.json") doc (fs w2))
         (requests w2) (S (clock_reads w2))
         (trace w2 ++ [EvWrite (safe_name name +:+ "_COMBINED.json") doc])).
    rewrite Hall.
    split; [by rewrite Hrun|]. split; [done|]. split; [done|].
    split; [by cbn [trace]; rewrite Ht, <- app_assoc|].
    split; [by cbn [fs]; rewrite replay_app, <- Hfs|].
    split; [by rewrite writes_app, Hw|].
    split; [by rewrite <- concat_length_sum, Hall|].
    apply Forall_app. split; [done|]. by repeat constructor.
Qed.

(** C2, as the code has it.  When the search returns at least 100 ids and
    reports a total above 100, [scrape_category] runs the ten level ranges,
    each through [scrape_category] with subdivision disabled (so the
    recursion is one level deep: two more levels of call depth always
    suffice), and returns the concatenation of the ten results.  It writes
    the combined file [<safe name>_COMBINED.json], tagged subdivided, with
    item count the sum of the ten results, when that sum is not zero; before
    it, every range whose result is not empty has written its own file
    [<safe name>_ilvl<min>-<max>.json]; nothing else is written, and every
    search sent after the first is the category's filter with one of the ten
    ranges. *)
Theorem subdivision_writes_combined env K fuel name filters w ids q total w1
    (Hbounded : rate_limit_bounded env K) (Hfuel : (K + 2 <= fuel)%nat)
    (Hsearch : search_items_with_filters env fuel filters name w
               = Ret (ids, q, total) w1)
    (Hfull : (100 <= length ids)%nat) (Htotal : 100 < total) :
  exists parts stamps ts t w2 w',
    scrape_category env fuel name filters true w = Ret (concat parts) w' /\
    sub_scrapes env (fuel - 2) name filters level_ranges w1 parts w2 /\
    length parts = 10%nat /\
    trace w' = trace w1 ++ t /\
    writes t = sub_files name level_ranges parts stamps
               ++ saved_file name "_COMBINED.json" true ts (concat parts) /\
    length (concat parts) = sum_list_with length parts /\
    Forall (fun e => is_search e = true ->
              exists r, r ∈ level_ranges /\
                        e = EvSearch (with_ilvl filters r.1 r.2)) t.
Proof.
  destruct (scrape_category_subdivided env K fuel name filters w ids q total
              w1 Hbounded Hfuel Hsearch Hfull Htotal)
    as (parts & stamps & ts & t & w2 & w' & H1 & H2 & H3 & H4 & _ & H5).
  by exists parts, stamps, ts, t, w2, w'.
Qed.

(** C2 as stated fails: on [overflow_env] the subdivided category writes its
    combined file and, before it, the file of the level range 1-20. *)
Lemma subdivision_writes_range_files :
  exists all_items w',
    scrape_category overflow_env 3 "Rare_0-1c" rare_0_1 true fresh_world
    = Ret all_items w' /\
    map fst (writes (trace w'))
    = ["Rare_0-1c_ilvl1-20.json"; "Rare_0-1c_COMBINED.json"].
Proof. do 2 eexists. split; [vm_compute; reflexivity|reflexivity]. Qed.


(** ** The test servers respect a bounded rate limit *)

Lemma busy_once_bounded : rate_limit_bounded busy_once_env 2.
Proof.
  split.
  - intros [|n] filters; [exists 1%nat|exists 0%nat]; by split; [lia|].
  - intros [|n] ids q; [exists 1%nat|exists 0%nat]; by split; [lia|].
Qed.

Lemma overflow_bounded : rate_limit_bounded overflow_env 1.
Proof.
  split.
  - intros n filters. exists 0%nat. split; [lia|]. simpl.
    destruct (ilvl filters) as [[[|[]|] ?]|]; reflexivity.
  - intros n ids q. exists 0%nat. by split; [lia|].
Qed.

Lemma fetch_phase_in_batches_witness :
  rate_limit_bounded busy_once_env 2 /\
  exists w',
    fetch_all busy_once_env 2 twelve_ids "q" fresh_world
    = Ret (records_of twelve_ids) w' /\
    fetch_all busy_once_env 2 twelve_ids "q" fresh_world
    = fetch_batches busy_once_env 2 "q"
        [["a"; "b"; "c"; "d"; "e"; "f"; "g"; "h"; "i"; "j"]; ["k"; "l"]]
        fresh_world /\
    trace w'
    = [EvFetch ["a"; "b"; "c"; "d"; "e"; "f"; "g"; "h"; "i"; "j"] "q";
       EvSleep 60;
       EvFetch ["a"; "b"; "c"; "d"; "e"; "f"; "g"; "h"; "i"; "j"] "q";
       EvSleep 5; EvFetch ["k"; "l"] "q"] /\
    fs w' = [].
Proof.
  split; [exact busy_once_bounded|].
  destruct (fetch_phase_in_batches busy_once_env 2 2 twelve_ids "q"
              fresh_world busy_once_bounded (le_n 2))
    as (_ & _ & Heq & all_items & retries & w' & Hrun & _ & _ & _ & _ & _
        & _ & Hfs & _).
  exists w'. split; [|split; [exact Heq|split; [|exact Hfs]]].
  - rewrite Hrun. vm_compute in Hrun. by injection Hrun as <- _.
  - vm_compute in Hrun. by injection Hrun as _ <-.
Defined.

Lemma zero_ids_completes_category_witness :
  exists w2,
    process_category nothing_env 1 1 1 "Rare_0-1c" rare_0_1
      (mkSession ∅ ∅ []) fresh_world
    = Ret (mkSession (∅ ∪ {["Rare_0-1c"]}) ∅ []) w2 /\
    load_progress w2 = Ret (∅ ∪ {["Rare_0-1c"]}, ∅) w2.
Proof.
  destruct (zero_ids_completes_category nothing_env 1 "Rare_0-1c" rare_0_1
              fresh_world "q" 0
              (mkWorld [] 1 1 [EvSearch rare_0_1]) eq_refl)
    as (_ & _ & _ & Hstep).
  destruct (Hstep 1%nat 1%nat (mkSession ∅ ∅ []))
    as (w2 & Hrun & _ & _ & Hload & _).
  exists w2. split; [exact Hrun|exact Hload].
Defined.


Lemma subdivision_writes_combined_witness :
  exists parts w',
    scrape_category overflow_env 3 "Rare_0-1c" rare_0_1 true fresh_world
    = Ret (concat parts) w' /\
    length parts = 10%nat.
Proof.
  destruct (subdivision_writes_combined overflow_env 1 3 "Rare_0-1c"
              rare_0_1 fresh_world (replicate 100 "x") "q" 150
              (mkWorld [] 1 0 [EvSearch rare_0_1])
              overflow_bounded (le_n 3) eq_refl
              (le_n 100) eq_refl)
    as (parts & stamps & ts & t & w2 & w' & Hrun & _ & Hlen & _).
  exists parts, w'. split; [exact Hrun|exact Hlen].
Defined.

(** ** What a category step leaves on disk *)

Lemma saved_file_docs name suffix flag ts all_items :
  Forall (fun nf : string * file =>
            exists doc, nf.2 = FCategory doc /\ items doc = all_items)
    (saved_file name suffix flag ts all_items).
Proof.
  destruct all_items; [apply Forall_nil_2|].
  apply Forall_cons. split; [|apply Forall_nil_2]. by eexists.
Qed.

Lemma sub_files_docs name ranges : forall parts stamps,
  Forall (fun nf : string * file =>
            exists doc, nf.2 = FCategory doc /\ items doc ⊆ concat parts)
    (sub_files name ranges parts stamps).
Proof.
  induction ranges as [|[mn mx] ranges IH]; intros [|p parts] [|ts stamps];
    try apply Forall_nil_2.
  cbn [sub_files concat]. apply Forall_app. split.
  - eapply Forall_impl; [apply saved_file_docs|].
    intros nf (doc & Hdoc & Hitems). exists doc. split; [done|].
    rewrite Hitems. intros x Hx. apply elem_of_app. by left.
  - eapply Forall_impl; [apply IH|].
    intros nf (doc & Hdoc & Hitems). exists doc. split; [done|].
    intros x Hx. apply elem_of_app. right. by apply Hitems.
Qed.

Section CategoryRuns.

Variable env : Environment.
Variable K : nat.
Hypothesis Hbounded : rate_limit_bounded env K.

(** [scrape_category] always returns, and every file it writes is a category
    document holding only items it returns. *)
Lemma scrape_category_runs fuel name filters w :
  (K + 2 <= fuel)%nat ->
  exists all_items t w',
    scrape_category env fuel name filters true w = Ret all_items w' /\
    trace w' = trace w ++ t /\ fs w' = replay t (fs w) /\
    Forall (fun nf : string * file =>
              exists doc, nf.2 = FCategory doc /\ items doc ⊆ all_items)
      (writes t).
Proof.
  intros Hfuel.
  destruct (search_runs env K Hbounded fuel filters name w ltac:(lia))
    as (k & w1 & _ & Hrun1 & Ht1 & Hfs1).
  destruct (search_answer _) as [[ids q] total].
  destruct ((100 <=? length ids)%nat && (100 <? total)) eqn:Hcond.
  - apply andb_true_iff in Hcond as [Hfull Htotal].
    apply Nat.leb_le in Hfull. apply Z.ltb_lt in Htotal.
    destruct (scrape_category_subdivided env K fuel name filters w ids q
                total w1 Hbounded Hfuel Hrun1 Hfull Htotal)
      as (parts & stamps & ts & t & w2 & w' & Hrun & _ & _ & Ht & Hfs & Hw & _).
    exists (concat parts), (retry_trace (EvSearch filters) k ++ t), w'.
    split; [done|]. split; [by rewrite Ht, Ht1, app_assoc|].
    split; [by rewrite replay_app, Hfs, Hfs1|].
    rewrite writes_app, writes_retry_trace by done. cbn [app]. rewrite Hw.
    apply Forall_app. split; [apply sub_files_docs|].
    eapply Forall_impl; [apply saved_file_docs|].
    intros nf (doc & Hdoc & Hitems). exists doc. by rewrite Hitems.
  - destruct (scrape_category_leaf env K Hbounded fuel name filters true
                w ids q total w1 ltac:(lia) Hrun1)
      as (all_items & tf & w' & Hrun & Ht & Hfs & _ & [ts Hw] & _).
    { by rewrite Hcond. }
    exists all_items, (retry_trace (EvSearch filters) k ++ tf), w'.
    split; [done|]. split; [by rewrite Ht, Ht1, app_assoc|].
    split; [by rewrite replay_app, Hfs, Hfs1|].
    rewrite writes_app, writes_retry_trace by done. cbn [app]. rewrite Hw.
    eapply Forall_impl; [apply saved_file_docs|].
    intros nf (doc & Hdoc & Hitems). exists doc. by rewrite Hitems.
Qed.

End CategoryRuns.

Lemma replay_lookup name f t : forall d,
  fs_lookup name (replay t d) = Some f ->
  (name, f) ∈ writes t \/ fs_lookup name d = Some f.
Proof.
  induction t as [|e t IH]; intros d Hl; [by right|].
  destruct e as [| | |n g]; cbn [replay foldl writes] in *;
    try (by apply IH).
  apply IH in Hl as [Hl|Hl]; [left; by right|].
  destruct (decide (n = name)) as [->|Hne].
  - rewrite fs_lookup_write_eq in Hl. injection Hl as ->. left. by left.
  - rewrite fs_lookup_write_ne in Hl by done. by right.
Qed.

Lemma track_item_seen seen_ids collected n x :
  exists seen_ids' collected' n',
    track_item (seen_ids, collected, n) x = (seen_ids', collected', n') /\
    seen_ids ⊆ seen_ids' /\
    forall i, item_id x = Some i -> truthy i = true -> i ∈ seen_ids'.
Proof.
  unfold track_item. destruct (item_id x) as [i|].
  - destruct (truthy i) eqn:Hti; cbn [andb].
    + destruct (bool_decide (i ∈ seen_ids)) eqn:Hmem; cbn [negb].
      * do 3 eexists. split; [done|]. split; [done|].
        intros j [= <-] _. by apply bool_decide_eq_true in Hmem.
      * do 3 eexists. split; [done|]. split; [set_solver|].
        intros j [= <-] _. set_solver.
    + do 3 eexists. split; [done|]. split; [done|].
      intros j [= <-]. congruence.
  - do 3 eexists. split; [done|]. split; [done|]. done.
Qed.

Lemma track_items_seen all_items : forall seen_ids collected n,
  seen_ids ⊆ (foldl track_item (seen_ids, collected, n) all_items).1.1 /\
  forall item i, item ∈ all_items -> item_id item = Some i ->
    truthy i = true ->
    i ∈ (foldl track_item (seen_ids, collected, n) all_items).1.1.
Proof.
  induction all_items as [|x l IH]; intros seen_ids collected n.
  - split; [done|]. intros item i Hin. by apply elem_of_nil in Hin.
  - cbn [foldl].
    destruct (track_item_seen seen_ids collected n x)
      as (S1 & c1 & n1 & -> & Hsub & Hx).
    destruct (IH S1 c1 n1) as [Hsub1 Hall].
    split; [by etrans|].
    intros item i Hin Hid Hti. apply elem_of_cons in Hin as [->|Hin].
    + apply Hsub1. by apply Hx.
    + by apply (Hall item).
Qed.

Lemma load_progress_ext w w' v :
  fs w' = fs w -> load_progress w = Ret v w -> load_progress w' = Ret v w'.
Proof.
  unfold load_progress. intros ->.
  destruct (fs_lookup PROGRESS_FILE (fs w)) as [[| | |]|]; intros H;
    by inversion H.
Qed.

(** ** Session *)

Section SessionRuns.

Variable env : Environment.
Variable K : nat.
Hypothesis Hbounded : rate_limit_bounded env K.

(** One category step: it returns, the category is completed, nothing is
    forgotten, and state and directory stay in sync. *)
Lemma process_category_keeps_sync fuel num_categories cat_num name filters
    st w :
  (K + 2 <= fuel)%nat -> in_sync st w ->
  exists st' w',
    process_category env fuel num_categories cat_num name filters st w
    = Ret st' w' /\
    in_sync st' w' /\
    completed st' = completed st ∪ {[name]} /\ seen st ⊆ seen st'.
Proof.
  intros Hfuel [Hload Hfiles].
  destruct (scrape_category_runs env K Hbounded fuel name filters (tick w)
              Hfuel)
    as (all_items & t & w1 & Hrun & Ht & Hfs & Hdocs).
  destruct (track_items_seen all_items (seen st) (all_items_collected st) O)
    as [Hsub Hids].
  destruct (foldl track_item (seen st, all_items_collected st, O) all_items)
    as [[seen_ids collected] new_items] eqn:Htrack.
  cbn [fst] in Hsub, Hids.
  set (doc := progress_doc (completed st ∪ {[name]}) seen_ids
                (clock env (clock_reads w1))).
  set (w_saved := mkWorld (fs_write PROGRESS_FILE doc (fs w1)) (requests w1)
                    (S (clock_reads w1))
                    (trace w1 ++ [EvWrite PROGRESS_FILE doc])).
  set (w' := if (cat_num <? num_categories)%nat
             then log (EvSleep DELAY_BETWEEN_SEARCHES) w_saved else w_saved).
  assert (fs w' = fs_write PROGRESS_FILE doc (fs w1)) as Hfs'
    by (unfold w'; by destruct (cat_num <? num_categories)%nat).
  exists (mkSession (completed st ∪ {[name]}) seen_ids collected), w'.
  split; [|split; [split|done]].
  - unfold process_category. unfold bind at 1. unfold now at 1.
    unfold bind at 1. rewrite Hrun, Htrack.
    unfold bind, save_progress, now, write_file, sleep, ret, bind, w'.
    by destruct (cat_num <? num_categories)%nat.
  - unfold load_progress. rewrite Hfs', fs_lookup_write_eq.
    unfold doc, progress_doc. cbn.
    by rewrite !list_to_set_elements_L.
  - cbn [seen]. intros name' doc' item i Hl Hin Hid Hti.
    rewrite Hfs' in Hl.
    destruct (decide (PROGRESS_FILE = name')) as [<-|Hne].
    { rewrite fs_lookup_write_eq in Hl. discriminate. }
    rewrite fs_lookup_write_ne in Hl by done.
    rewrite Hfs in Hl. apply replay_lookup in Hl as [Hl|Hl].
    + rewrite Forall_forall in Hdocs.
      destruct (Hdocs _ Hl) as (d & Hd & Hitems).
      cbn in Hd. injection Hd as <-.
      apply (Hids item); [by apply Hitems|done|done].
    + apply Hsub. by apply (Hfiles name' doc' item).
Qed.

Lemma session_loop_keeps_sync fuel num_categories categories :
  forall cat_num st w,
  (K + 2 <= fuel)%nat -> in_sync st w ->
  exists st' w',
    session_loop env fuel num_categories cat_num categories st w
    = Ret st' w' /\
    in_sync st' w' /\
    completed st ⊆ completed st' /\ seen st ⊆ seen st' /\
    forall c, c ∈ categories -> c.1 ∈ completed st'.
Proof.
  induction categories as [|[name filters] categories IH];
    intros cat_num st w Hfuel Hsync.
  - exists st, w. do 4 (split; [done|]).
    intros c Hc. by apply elem_of_nil in Hc.
  - cbn [session_loop].
    destruct (bool_decide (name ∈ completed st)) eqn:Hdone.
    + apply bool_decide_eq_true in Hdone.
      destruct (IH (S cat_num) st w Hfuel Hsync)
        as (st' & w' & Hrun & Hsync' & HC & HS & Hall).
      exists st', w'. do 4 (split; [done|]).
      intros c Hc. apply elem_of_cons in Hc as [->|Hc]; [|by apply Hall].
      by apply HC.
    + destruct (process_category_keeps_sync fuel num_categories cat_num name
                  filters st w Hfuel Hsync)
        as (st1 & w1 & Hrun1 & Hsync1 & HC1 & HS1).
      destruct (IH (S cat_num) st1 w1 Hfuel Hsync1)
        as (st' & w' & Hrun & Hsync' & HC & HS & Hall).
      exists st', w'. unfold bind. rewrite Hrun1.
      split; [done|]. split; [done|].
      split; [etrans; [|exact HC]; rewrite HC1; apply union_subseteq_l|].
      split; [by etrans|].
      intros c Hc. apply elem_of_cons in Hc as [->|Hc]; [|by apply Hall].
      apply HC. rewrite HC1. apply elem_of_union. right.
      by apply elem_of_singleton.
Qed.

End SessionRuns.

(** C9, as the code has it.  Call a state in sync with the directory when the
    progress store holds its two sets and every non-empty item id of every
    category file on disk is in [seen_item_ids].  Under a bounded rate
    limit, every category step returns and keeps state and directory in
    sync, adding the category to [completed_categories] and forgetting no
    seen id; and every run that starts from a directory whose category files
    are covered by the loaded [seen_item_ids] returns with the progress
    store again covering every category file, with both sets grown and every
    category of the session completed. *)
Theorem progress_invariant_preserved env K fuel session_number categories w
    loaded_completed loaded_seen
    (Hbounded : rate_limit_bounded env K) (Hfuel : (K + 2 <= fuel)%nat)
    (Hload : load_progress w = Ret (loaded_completed, loaded_seen) w)
    (Hfiles : files_seen (fs w) loaded_seen) :
  (forall num_categories cat_num name filters st w0,
     in_sync st w0 ->
     exists st' w1,
       process_category env fuel num_categories cat_num name filters st w0
       = Ret st' w1 /\
       in_sync st' w1 /\
       completed st' = completed st ∪ {[name]} /\ seen st ⊆ seen st') /\
  exists w' completed' seen',
    scrape_session env fuel session_number categories w = Ret tt w' /\
    load_progress w' = Ret (completed', seen') w' /\
    files_seen (fs w') seen' /\
    loaded_completed ⊆ completed' /\ loaded_seen ⊆ seen' /\
    forall c, c ∈ categories -> c.1 ∈ completed'.
Proof.
  split.
  { intros. by apply (process_category_keeps_sync env K Hbounded). }
  destruct (session_loop_keeps_sync env K Hbounded fuel (length categories)
              categories 1%nat
              (mkSession loaded_completed loaded_seen []) (tick w) Hfuel)
    as (st' & w' & Hrun & [Hload' Hfiles'] & HC & HS & Hall).
  { split; [|done]. by apply (load_progress_ext w). }
  exists (tick w'), (completed st'), (seen st').
  split; [|split; [|done]].
  - unfold scrape_session, create_output_directory.
    unfold bind at 1. unfold ret at 1. unfold bind at 1. rewrite Hload.
    unfold bind at 1. unfold now at 1. unfold bind at 1. rewrite Hrun.
    reflexivity.
  - by apply (load_progress_ext w').
Qed.

Lemma progress_invariant_preserved_witness :
  exists w' completed' seen',
    scrape_session busy_once_env 4 1 [("Rare_0-1c", rare_0_1)] fresh_world
    = Ret tt w' /\
    load_progress w' = Ret (completed', seen') w' /\
    files_seen (fs w') seen' /\ "Rare_0-1c" ∈ completed'.
Proof.
  assert (files_seen (fs fresh_world) ∅) as Hfiles
    by (intros name doc item i Hl; discriminate Hl).
  destruct (progress_invariant_preserved busy_once_env 2 4 1
              [("Rare_0-1c", rare_0_1)] fresh_world ∅ ∅
              busy_once_bounded (le_n 4) eq_refl Hfiles)
    as (_ & w' & C' & S' & Hrun & Hload & Hseen & _ & _ & Hall).
  exists w', C', S'. split; [exact Hrun|]. split; [exact Hload|].
  split; [exact Hseen|].
  apply (Hall ("Rare_0-1c", rare_0_1)). by left.
Defined.

(** C9 as stated fails, in two ways.  A record whose [id] is empty is saved
    in the category file but never enters [seen_item_ids].  And a category
    file left on disk by an earlier, interrupted attempt stays there when the
    category is completed by a run that finds nothing, so the file of a
    completed category holds an id that the persisted [seen_item_ids] does
    not. *)
Lemma seen_ids_may_miss_saved_ids :
  (exists w' doc progress,
     scrape_session blank_id_env 3 1 [("Rare_0-1c", rare_0_1)] fresh_world
     = Ret tt w' /\
     fs_lookup "Rare_0-1c.json" (fs w') = Some (FCategory doc) /\
     map item_id (items doc) = [Some EmptyString] /\
     fs_lookup PROGRESS_FILE (fs w') = Some (FProgress progress) /\
     completed_categories progress = ["Rare_0-1c"] /\
     seen_item_ids progress = []) /\
  (load_progress orphan_world = Ret (∅, ∅) orphan_world /\
   exists w' doc progress,
     scrape_session nothing_env 3 1 [("Rare_0-1c", rare_0_1)] orphan_world
     = Ret tt w' /\
     fs_lookup "Rare_0-1c.json" (fs w') = Some (FCategory doc) /\
     category doc = "Rare_0-1c" /\
     map item_id (items doc) = [Some "x"] /\
     fs_lookup PROGRESS_FILE (fs w') = Some (FProgress progress) /\
     completed_categories progress = ["Rare_0-1c"] /\
     seen_item_ids progress = []).
Proof.
  split; [|split; [reflexivity|]].
  - do 3 eexists. split; [vm_compute; reflexivity|]. repeat split.
  - do 3 eexists. split; [vm_compute; reflexivity|]. repeat split.
Qed.

(** ** Skipping completed categories *)

Lemma process_category_completed env fuel num_categories cat_num name filters
    st w st' w' :
  process_category env fuel num_categories cat_num name filters st w
  = Ret st' w' ->
  completed st' = completed st ∪ {[name]}.
Proof.
  unfold process_category, bind, now.
  destruct (scrape_category env fuel name filters true (tick w))
    as [all_items w1| |]; [|done|done].
  destruct (foldl track_item _ all_items) as [[seen_ids collected] n].
  unfold save_progress, bind, now, write_file, sleep, ret.
  destruct (cat_num <? num_categories)%nat; intros H; by inversion H.
Qed.

Lemma session_loop_completed_mono env fuel num_categories categories :
  forall cat_num st w st' w',
  session_loop env fuel num_categories cat_num categories st w = Ret st' w' ->
  completed st ⊆ completed st'.
Proof.
  induction categories as [|[name filters] categories IH];
    intros cat_num st w st' w' Hrun.
  - cbn in Hrun. by inversion Hrun.
  - cbn [session_loop] in Hrun.
    destruct (bool_decide (name ∈ completed st)); [by eapply IH|].
    unfold bind in Hrun.
    destruct (process_category env fuel num_categories cat_num name filters
                st w) as [st1 w1| |] eqn:Hstep; [|done|done].
    apply process_category_completed in Hstep. apply IH in Hrun.
    etrans; [|exact Hrun]. rewrite Hstep. apply union_subseteq_l.
Qed.

Lemma session_loop_app env fuel num_categories before after :
  forall cat_num st w,
  session_loop env fuel num_categories cat_num (before ++ after) st w
  = bind (session_loop env fuel num_categories cat_num before st)
      (fun st' =>
         session_loop env fuel num_categories (cat_num + length before)
           after st') w.
Proof.
  induction before as [|[name filters] before IH]; intros cat_num st w.
  - cbn. unfold bind, ret. by rewrite Nat.add_0_r.
  - cbn [app session_loop length].
    replace (cat_num + S (length before))%nat
      with (S cat_num + length before)%nat by lia.
    destruct (bool_decide (name ∈ completed st)); [apply IH|].
    rewrite bind_assoc. apply bind_ext. intros st1 w1. apply IH.
Qed.

Lemma session_loop_all_completed env fuel num_categories categories :
  forall cat_num st w,
  (forall c, c ∈ categories -> c.1 ∈ completed st) ->
  session_loop env fuel num_categories cat_num categories st w = Ret st w.
Proof.
  induction categories as [|[name filters] categories IH];
    intros cat_num st w Hall; [done|].
  cbn [session_loop].
  rewrite bool_decide_eq_true_2 by (apply (Hall (name, filters)); by left).
  apply IH. intros c Hc. apply Hall. by right.
Qed.

(** C4. A category whose name is in the loaded [completed_categories] is
    skipped entirely.  The run over the session is the run over the
    categories before it followed at once by the run over the categories
    after it: at its own turn no request is sent, no file is written and
    the progress state is not changed.  In particular a session whose
    categories are all completed does nothing but read the clock twice. *)
Theorem completed_category_is_skipped env fuel session_number before name
    filters after w loaded_completed loaded_seen
    (Hload : load_progress w = Ret (loaded_completed, loaded_seen) w)
    (Hdone : name ∈ loaded_completed) :
  let categories := before ++ (name, filters) :: after in
  let n := length categories in
  scrape_session env fuel session_number categories w
  = bind (session_loop env fuel n 1 before
            (mkSession loaded_completed loaded_seen []))
      (fun st =>
         bind (session_loop env fuel n (S (S (length before))) after st)
           (fun _ => bind (now env) (fun _ => ret tt))) (tick w) /\
  (forall cat_num st w0, name ∈ completed st ->
     session_loop env fuel n cat_num ((name, filters) :: after) st w0
     = session_loop env fuel n (S cat_num) after st w0) /\
  ((forall c, c ∈ categories -> c.1 ∈ loaded_completed) ->
   scrape_session env fuel session_number categories w
   = Ret tt (tick (tick w))).
Proof.
  intros categories n. split; [|split].
  - unfold scrape_session, create_output_directory.
    unfold bind at 1. unfold ret at 1. unfold bind at 1. rewrite Hload.
    unfold bind at 1. unfold now at 1.
    change (length categories) with n.
    unfold categories. unfold bind at 1. rewrite session_loop_app.
    unfold bind.
    destruct (session_loop env fuel n 1 before _ (tick w))
      as [st1 w1| |] eqn:Hbefore; [|done|done].
    apply session_loop_completed_mono in Hbefore. cbn [completed] in Hbefore.
    cbn [session_loop].
    rewrite bool_decide_eq_true_2 by by apply Hbefore.
    replace (S (1 + length before)) with (S (S (length before))) by lia.
    reflexivity.
  - intros cat_num st w0 Hst. cbn [session_loop].
    by rewrite bool_decide_eq_true_2.
  - intros Hall. unfold scrape_session, create_output_directory.
    unfold bind at 1. unfold ret at 1. unfold bind at 1. rewrite Hload.
    unfold bind at 1. unfold now at 1. unfold bind at 1.
    by rewrite session_loop_all_completed.
Qed.

Lemma completed_category_is_skipped_witness :
  scrape_session busy_once_env 4 1 [("Rare_0-1c", rare_0_1)] resumed_world
  = Ret tt (tick (tick resumed_world)).
Proof.
  assert ("Rare_0-1c" ∈ (list_to_set ["Rare_0-1c"] : gset string)) as Hdone
    by (apply elem_of_list_to_set; by left).
  destruct (completed_category_is_skipped busy_once_env 4 1 [] "Rare_0-1c"
              rare_0_1 [] resumed_world _ _ eq_refl Hdone)
    as (_ & _ & Hall).
  apply Hall. intros c Hc. apply list_elem_of_singleton in Hc. by subst c.
Defined.

(** ** Aggregator *)

Lemma master_loop_scanned entries : forall st w,
  Forall (fun nf : string * file => scanned nf.1 = true -> nf.2 <> FCorrupt)
    entries ->
  master_loop entries st w
  = Ret (foldl master_item st (scanned_items entries)) w.
Proof.
  induction entries as [|[filename f] entries IH]; intros st w Hok; [done|].
  apply Forall_cons in Hok as [Hf Hok]. cbn [master_loop scanned_items].
  destruct (scanned filename) eqn:Hs; [|by apply IH].
  rewrite foldl_app.
  destruct f; [by destruct (Hf Hs)| | |]; by apply IH.
Qed.

Lemma with_id_app i l1 l2 : with_id i (l1 ++ l2) = with_id i l1 ++ with_id i l2.
Proof. apply filter_app. Qed.

Lemma with_id_singleton_eq i item :
  item_id item = Some i -> with_id i [item] = [item].
Proof. intros H. unfold with_id. by rewrite filter_cons_True. Qed.

Lemma with_id_singleton_ne i item :
  item_id item <> Some i -> with_id i [item] = [].
Proof. intros H. unfold with_id. by rewrite filter_cons_False. Qed.

Lemma with_id_nil_iff i l :
  with_id i l = [] <-> forall item, item ∈ l -> item_id item <> Some i.
Proof.
  unfold with_id. split.
  - intros Hnil item Hin Hid.
    assert (item ∈ filter (fun item => item_id item = Some i) l) as Hf
      by by apply list_elem_of_filter.
    rewrite Hnil in Hf. by apply elem_of_nil in Hf.
  - intros Hall. induction l as [|x l IH]; [done|].
    rewrite filter_cons_False by (apply Hall; by left).
    apply IH. intros item Hin. apply Hall. by right.
Qed.

Lemma take1_app_nonempty {A} (l1 l2 : list A) :
  l1 <> [] -> take 1 (l1 ++ l2) = take 1 l1.
Proof. by destruct l1. Qed.

Lemma master_item_inv all_items seen_ids done item :
  master_inv all_items seen_ids done ->
  master_inv (master_item (all_items, seen_ids) item).1
    (master_item (all_items, seen_ids) item).2 (done ++ [item]).
Proof.
  intros (Hseen & Hfirst & Hids & Hsub).
  assert (forall j, truthy j = true -> item_id item <> Some j ->
            with_id j all_items = take 1 (with_id j (done ++ [item])))
    as Hother.
  { intros j Hj Hne.
    by rewrite with_id_app, with_id_singleton_ne, app_nil_r, Hfirst. }
  assert (forall j, j ∈ seen_ids ->
            with_id j all_items = take 1 (with_id j (done ++ [item])))
    as Hmet.
  { intros j Hj. apply Hseen in Hj as (Htj & it & Hin & Hid).
    rewrite with_id_app, take1_app_nonempty; [by apply Hfirst|].
    intros Hnil. by apply (proj1 (with_id_nil_iff j done) Hnil it). }
  assert ((master_item (all_items, seen_ids) item = (all_items, seen_ids) /\
           master_inv all_items seen_ids (done ++ [item])) \/
          exists i, item_id item = Some i /\ truthy i = true /\
                    (i ∉ seen_ids) /\
                    master_item (all_items, seen_ids) item
                    = (all_items ++ [item], seen_ids ∪ {[i]}))
    as [[-> Hsame]|Hnew].
  { unfold master_item. destruct (item_id item) as [i|] eqn:Hid.
    - destruct (truthy i) eqn:Hti; cbn [andb].
      + destruct (bool_decide (i ∈ seen_ids)) eqn:Hmem; cbn [negb].
        * apply bool_decide_eq_true in Hmem. left. split; [done|].
          split; [|split; [|split]].
          -- intros j. rewrite Hseen. split.
             ++ intros (Hj & it & Hin & Hit). split; [done|].
                exists it. split; [|done]. apply elem_of_app. by left.
             ++ intros (Hj & it & Hin & Hit). split; [done|].
                apply elem_of_app in Hin as [Hin|Hin]; [by exists it|].
                apply list_elem_of_singleton in Hin. subst it.
                assert (j = i) as -> by congruence.
                by apply Hseen in Hmem as [_ ?].
          -- intros j Hj. destruct (decide (j = i)) as [->|Hne].
             ++ by apply Hmet.
             ++ apply Hother; [done|]. congruence.
          -- done.
          -- by apply sublist_inserts_r.
        * apply bool_decide_eq_false in Hmem. right. by exists i.
      + left. split; [done|]. split; [|split; [|split]].
        * intros j. rewrite Hseen. split.
          -- intros (Hj & it & Hin & Hit). split; [done|].
             exists it. split; [|done]. apply elem_of_app. by left.
          -- intros (Hj & it & Hin & Hit). split; [done|].
             apply elem_of_app in Hin as [Hin|Hin]; [by exists it|].
             apply list_elem_of_singleton in Hin. subst it. congruence.
        * intros j Hj. apply Hother; [done|]. congruence.
        * done.
        * by apply sublist_inserts_r.
    - left. split; [done|]. split; [|split; [|split]].
      + intros j. rewrite Hseen. split.
        * intros (Hj & it & Hin & Hit). split; [done|].
          exists it. split; [|done]. apply elem_of_app. by left.
        * intros (Hj & it & Hin & Hit). split; [done|].
          apply elem_of_app in Hin as [Hin|Hin]; [by exists it|].
          apply list_elem_of_singleton in Hin. subst it. congruence.
      + intros j Hj. apply Hother; [done|]. congruence.
      + done.
      + by apply sublist_inserts_r. }
  - done.
  - destruct Hnew as (i & Hid & Hti & Hmem & ->). cbn [fst snd].
    split; [|split; [|split]].
    + intros j. rewrite elem_of_union, elem_of_singleton, Hseen. split.
      * intros [(Hj & it & Hin & Hit)| ->].
        -- split; [done|]. exists it. split; [|done].
           apply elem_of_app. by left.
        -- split; [done|]. exists item. split; [|done].
           apply elem_of_app. right. by apply list_elem_of_singleton.
      * intros (Hj & it & Hin & Hit).
        apply elem_of_app in Hin as [Hin|Hin]; [left; split; eauto|].
        apply list_elem_of_singleton in Hin. subst it. right. congruence.
    + intros j Hj. destruct (decide (j = i)) as [->|Hne].
      * assert (with_id i done = []) as Hnone.
        { apply with_id_nil_iff. intros it Hin Hit. apply Hmem.
          apply Hseen. split; [done|]. by exists it. }
        rewrite !with_id_app, Hnone, with_id_singleton_eq by done.
        by rewrite (Hfirst i Hti), Hnone.
      * rewrite with_id_app, with_id_singleton_ne, app_nil_r by congruence.
        apply Hother; [done|congruence].
    + apply Forall_app. split; [done|].
      apply Forall_cons. split; [by exists i|apply Forall_nil_2].
    + by apply sublist_app.
Qed.

Lemma master_inv_start : master_inv [] ∅ [].
Proof.
  split; [|split; [|split]].
  - intros i. split; [set_solver|].
    intros (_ & item & Hin & _). by apply elem_of_nil in Hin.
  - done.
  - apply Forall_nil_2.
  - apply sublist_nil.
Qed.

Lemma master_fold_inv l : forall all_items seen_ids done,
  master_inv all_items seen_ids done ->
  master_inv (foldl master_item (all_items, seen_ids) l).1
    (foldl master_item (all_items, seen_ids) l).2 (done ++ l).
Proof.
  induction l as [|x l IH]; intros all_items seen_ids done Hinv.
  - by rewrite app_nil_r.
  - cbn [foldl]. apply (master_item_inv _ _ _ x) in Hinv.
    destruct (master_item (all_items, seen_ids) x) as [all_items' seen_ids'].
    replace (done ++ x :: l) with ((done ++ [x]) ++ l)
      by by rewrite <- app_assoc.
    by apply IH.
Qed.

(** C5, as the code has it.  Over a directory in which every scanned file
    decodes, the aggregator scans the [.json] files other than
    [progress.json] and those whose name starts with [MASTER], in
    enumeration order, and writes one file, [MASTER_<n>_items.json], holding
    [n] records.  These records are taken from the scanned files in order;
    each has a non-empty [id]; and every non-empty id that occurs in a
    scanned file appears in the master file exactly once, with the first
    record that carries it.  Records whose [id] is missing or empty are left
    out. *)
Theorem master_file_deduplicates env w
    (Hdecodable :
       Forall (fun nf : string * file =>
                 scanned nf.1 = true -> nf.2 <> FCorrupt) (fs w)) :
  exists master,
    let master_file := "MASTER_" +:+ pretty (length master) +:+ "_items.json" in
    let doc := FMaster (mkMasterDoc (length master)
                          (clock env (clock_reads w)) master) in
    create_master_file env w
    = Ret tt (mkWorld (fs_write master_file doc (fs w)) (requests w)
                (S (clock_reads w)) (trace w ++ [EvWrite master_file doc])) /\
    sublist master (scanned_items (fs w)) /\
    Forall (fun item => exists i, item_id item = Some i /\ truthy i = true)
      master /\
    forall i, truthy i = true ->
      (exists item, item ∈ scanned_items (fs w) /\ item_id item = Some i) ->
      exists first,
        with_id i master = [first] /\
        head (with_id i (scanned_items (fs w))) = Some first.
Proof.
  pose proof (master_fold_inv (scanned_items (fs w)) [] ∅ [] master_inv_start)
    as Hinv.
  cbn [app] in Hinv.
  destruct (foldl master_item ([], ∅) (scanned_items (fs w)))
    as [master seen_ids] eqn:Hfold.
  destruct Hinv as (_ & Hfirst & Hids & Hsub). cbn [fst snd] in *.
  exists master. cbn zeta. split; [|split; [done|split; [done|]]].
  - unfold create_master_file. unfold bind at 1.
    rewrite master_loop_scanned by done. by rewrite Hfold.
  - intros i Hi (item & Hin & Hid).
    rewrite (Hfirst i Hi).
    destruct (with_id i (scanned_items (fs w))) as [|first others] eqn:Hw.
    + by destruct (proj1 (with_id_nil_iff _ _) Hw item Hin).
    + by exists first.
Qed.

Lemma master_file_deduplicates_witness :
  exists master w',
    create_master_file busy_once_env two_files_world = Ret tt w' /\
    with_id "x" master = [mkItem (Some "x") "first"] /\
    fs_lookup ("MASTER_" +:+ pretty (length master) +:+ "_items.json") (fs w')
    = Some (FMaster (mkMasterDoc (length master) "T4" master)).
Proof.
  assert (Forall (fun nf : string * file =>
                    scanned nf.1 = true -> nf.2 <> FCorrupt)
            (fs two_files_world)) as Hdecodable
    by (repeat (apply Forall_cons; split; [intros _; discriminate|]);
        apply Forall_nil_2).
  destruct (master_file_deduplicates busy_once_env two_files_world Hdecodable)
    as (master & Hrun & _ & _ & Honce).
  destruct (Honce "x" eq_refl) as (first & Hone & Hhead).
  { exists (mkItem (Some "x") "first"). split; [by left|done]. }
  vm_compute in Hhead. injection Hhead as <-.
  eexists master, _. split; [exact Hrun|]. split; [exact Hone|].
  cbn [fs]. by rewrite fs_lookup_write_eq.
Defined.

(** C5 as stated fails, in two ways.  An item id that is the empty string
    occurs in a category file and not at all in the master file.  And a
    category file that does not decode makes the aggregator raise, so no
    master file is written. *)
Lemma master_file_may_miss_ids :
  (map item_id (scanned_items (fs blank_id_world)) = [Some EmptyString] /\
   exists w',
     create_master_file nothing_env blank_id_world = Ret tt w' /\
     writes (trace w')
     = [("MASTER_0_items.json", FMaster (mkMasterDoc 0 "T1" []))]) /\
  (fs_lookup "Rare_0-1c.json" (fs truncated_world) = Some FCorrupt /\
   create_master_file nothing_env truncated_world
   = Raise JSONDecodeError truncated_world).
Proof.
  split; split; try reflexivity.
  eexists. split; [vm_compute; reflexivity|reflexivity].
Qed.

(** * Further properties of the code *)

(** ** File names *)

Lemma chars_app a b :
  String.list_ascii_of_string (a +:+ b)
  = String.list_ascii_of_string a ++ String.list_ascii_of_string b.
Proof. induction a as [|c a IH]; [done|]. simpl. by f_equal. Qed.

Lemma str_replace_chars old new s c :
  c ∈ String.list_ascii_of_string (str_replace old new s) ->
  (c ∈ String.list_ascii_of_string s /\ c <> old) \/ c ∈ String.list_ascii_of_string new.
Proof.
  induction s as [|x s IH]; cbn [str_replace String.list_ascii_of_string].
  - intros H. by apply elem_of_nil in H.
  - destruct (Ascii.eqb x old) eqn:E.
    + rewrite chars_app. intros H. apply elem_of_app in H as [H|H];
        [by right|].
      destruct (IH H) as [[H1 H2]|H1]; [left|by right].
      split; [by right|done].
    + apply Ascii.eqb_neq in E. cbn [String.list_ascii_of_string]. intros H.
      apply elem_of_cons in H as [->|H]; [left; split; [by left|done]|].
      destruct (IH H) as [[H1 H2]|H1]; [left|by right].
      split; [by right|done].
Qed.

Lemma str_replace_clean old new s :
  old ∉ String.list_ascii_of_string s -> str_replace old new s = s.
Proof.
  induction s as [|x s IH]; [done|]. cbn [str_replace String.list_ascii_of_string].
  intros H. apply not_elem_of_cons in H as [Hx Hs].
  destruct (Ascii.eqb x old) eqn:E.
  - apply Ascii.eqb_eq in E. congruence.
  - by rewrite IH.
Qed.

Lemma append_assoc (a b c : string) : (a +:+ b) +:+ c = a +:+ (b +:+ c).
Proof.
  induction a as [|x a IH]; [done|].
  change (String x ((a +:+ b) +:+ c) = String x (a +:+ (b +:+ c))).
  by rewrite IH.
Qed.

Lemma str_replace_app old new a b :
  str_replace old new (a +:+ b)
  = str_replace old new a +:+ str_replace old new b.
Proof.
  induction a as [|x a IH]; [done|].
  change (String x a +:+ b) with (String x (a +:+ b)). cbn [str_replace].
  destruct (Ascii.eqb x old); rewrite IH; [|done].
  by rewrite append_assoc.
Qed.

Lemma safe_name_app a b : safe_name (a +:+ b) = safe_name a +:+ safe_name b.
Proof. unfold safe_name. by rewrite !str_replace_app. Qed.

Lemma safe_name_chars s c :
  c ∈ String.list_ascii_of_string (safe_name s) -> c ∉ unsafe_chars.
Proof.
  unfold safe_name, unsafe_chars. intros H.
  repeat match goal with
         | H : _ ∈ String.list_ascii_of_string (str_replace _ _ _) |- _ =>
             apply str_replace_chars in H as [[H ?]|H]
         end;
    repeat match goal with
           | H : _ ∈ String.list_ascii_of_string (String _ _) |- _ =>
               cbn in H; apply elem_of_cons in H as [->|H]
           | H : _ ∈ String.list_ascii_of_string EmptyString |- _ =>
               cbn in H; by apply elem_of_nil in H
           | H : _ ∈ [] |- _ => by apply elem_of_nil in H
           end;
    rewrite !not_elem_of_cons; repeat split; try done;
    try apply not_elem_of_nil.
Qed.

Lemma safe_name_clean s :
  Forall (fun c => c ∉ String.list_ascii_of_string s) unsafe_chars ->
  safe_name s = s.
Proof.
  unfold unsafe_chars. intros H.
  apply Forall_cons in H as [H1 H]. apply Forall_cons in H as [H2 H].
  apply Forall_cons in H as [H3 H]. apply Forall_cons in H as [H4 _].
  unfold safe_name.
  rewrite (str_replace_clean " "%char) by done.
  rewrite (str_replace_clean "|"%char) by done.
  rewrite (str_replace_clean "/"%char) by done.
  by rewrite (str_replace_clean ":"%char).
Qed.

(** X1. The name [safe_name] builds contains no space, [|], [/] or [:]; a
    name without these characters is left as it is; and applying
    [safe_name] twice changes nothing more. *)
Theorem safe_name_is_safe s :
  (forall c, c ∈ String.list_ascii_of_string (safe_name s) -> c ∉ unsafe_chars) /\
  (Forall (fun c => c ∉ String.list_ascii_of_string s) unsafe_chars ->
   safe_name s = s) /\
  safe_name (safe_name s) = safe_name s.
Proof.
  split; [apply safe_name_chars|]. split; [apply safe_name_clean|].
  apply safe_name_clean. apply Forall_forall. intros c Hc Hin.
  by apply safe_name_chars in Hin.
Qed.

Lemma safe_name_is_safe_witness :
  safe_name "Rare_0-1c" = "Rare_0-1c" /\
  safe_name "Rare 0-1c: a|b/c" = "Rare_0-1c_a-b-c".
Proof.
  split; [|reflexivity].
  apply (proj1 (proj2 (safe_name_is_safe "Rare_0-1c"))).
  unfold unsafe_chars. repeat (apply Forall_cons; split;
    [cbn; rewrite !not_elem_of_cons; repeat split;
       try discriminate; apply not_elem_of_nil|]).
  apply Forall_nil_2.
Defined.

Lemma category_files_suffixes name :
  category_files name
  = map (String.append (safe_name name))
      [".json"; "_COMBINED.json"; "_ilvl1-20.json"; "_ilvl21-40.json";
       "_ilvl41-50.json"; "_ilvl51-60.json"; "_ilvl61-65.json";
       "_ilvl66-70.json"; "_ilvl71-75.json"; "_ilvl76-80.json";
       "_ilvl81-85.json"; "_ilvl86-100.json"].
Proof.
  unfold category_files, level_ranges, sub_category_name.
  cbn [map]. rewrite !(safe_name_app name), !append_assoc.
  reflexivity.
Qed.

(** X2. Whatever the category name, the twelve file names the pipeline can
    use for it (its own file, the combined file and the ten level-range
    files) are pairwise distinct, and each is the safe name followed by a
    fixed suffix: within a category, no file overwrites another. *)
Theorem category_files_distinct name :
  NoDup (category_files name) /\
  Forall (fun f => exists suffix, f = safe_name name +:+ suffix
                                  /\ endswith suffix ".json" = true)
    (category_files name).
Proof.
  rewrite category_files_suffixes. split.
  - apply (NoDup_fmap_2 (String.append (safe_name name))).
    apply (bool_decide_unpack _). by vm_compute.
  - apply Forall_fmap, Forall_forall. intros suffix Hs.
    exists suffix. split; [done|].
    repeat (apply elem_of_cons in Hs as [->|Hs]; [reflexivity|]).
    by apply elem_of_nil in Hs.
Qed.

(** ** Level ranges and generated categories *)

(** X3. The ten level ranges of the subdivision split the levels 1 to 100
    without gap or overlap: every such level lies in exactly one range, and a
    level outside 1..100 lies in none. *)
Theorem level_ranges_partition (l : Z) :
  length (filter (fun r : Z * Z => r.1 <= l <= r.2) level_ranges)
  = if decide (1 <= l <= 100) then 1%nat else 0%nat.
Proof.
  unfold level_ranges.
  repeat (rewrite filter_cons; cbn [fst snd]; case_decide; try lia);
    rewrite ?filter_nil; cbn [length]; case_decide; lia.
Qed.

Lemma chained_cover buckets : forall lo p,
  chained lo buckets -> buckets <> [] ->
  from_option (fun l => l <= p) True lo ->
  exists b, b ∈ buckets /\ in_bucket p b.
Proof.
  induction buckets as [|b buckets IH]; intros lo p Hch Hne Hlo; [done|].
  destruct Hch as [Hmin Hch].
  destruct (price_max b) as [hi|] eqn:Hmax.
  - destruct (decide (p <= hi)) as [Hle|Hgt].
    + exists b. split; [by left|]. unfold in_bucket. by rewrite Hmin, Hmax.
    + destruct buckets as [|b' buckets']; [done|].
      destruct (IH (Some hi) p Hch ltac:(done)) as (b0 & Hin & Hb0).
      { simpl. lia. }
      exists b0. split; [by right|done].
  - exists b. split; [by left|]. unfold in_bucket. by rewrite Hmin, Hmax.
Qed.

(** X4. The price buckets of the generated categories are chained: the rare
    buckets of sessions 1 to 3 start at 0, each ends where the next starts,
    and the last is unbounded; the unique and the magic buckets start
    unbounded below and end unbounded above.  Hence, bounds being inclusive,
    every price from 0 on is in a rare bucket and every price is in a unique
    and in a magic bucket. *)
Theorem price_buckets_cover :
  chained (Some 0) (map snd (session1 ++ session2 ++ session3)) /\
  chained None (map snd session4) /\
  chained None (map snd session5) /\
  (forall p, 0 <= p ->
     exists c, c ∈ session1 ++ session2 ++ session3 /\ in_bucket p c.2) /\
  (forall p, exists c, c ∈ session4 /\ in_bucket p c.2) /\
  (forall p, exists c, c ∈ session5 /\ in_bucket p c.2).
Proof.
  assert (chained (Some 0) (map snd (session1 ++ session2 ++ session3)))
    as H1 by (vm_compute; tauto).
  assert (chained None (map snd session4)) as H4 by (vm_compute; tauto).
  assert (chained None (map snd session5)) as H5 by (vm_compute; tauto).
  do 3 (split; [done|]).
  split; [|split]; intros p.
  - intros Hp.
    destruct (chained_cover _ (Some 0) p H1) as (b & Hin & Hb);
      [done|done|].
    apply list_elem_of_fmap in Hin as (c & -> & Hc). by exists c.
  - destruct (chained_cover _ None p H4) as (b & Hin & Hb); [done|done|].
    apply list_elem_of_fmap in Hin as (c & -> & Hc). by exists c.
  - destruct (chained_cover _ None p H5) as (b & Hin & Hb); [done|done|].
    apply list_elem_of_fmap in Hin as (c & -> & Hc). by exists c.
Qed.

(** X5. The generator yields sessions 1 to 5 and nothing else; its 48
    category names are pairwise distinct and already safe, so the file names
    of different categories never coincide (all 576 candidate names are
    distinct); and every such file is one the aggregator scans: none is the
    progress file and none looks like a master file. *)
Theorem generated_files_distinct :
  (forall n, is_Some (generate_all_categories !! n) <-> (1 <= n <= 5)%nat) /\
  (forall n categories, generate_all_categories !! n = Some categories ->
     categories ⊆ all_categories) /\
  length all_categories = 48%nat /\
  NoDup (map fst all_categories) /\
  Forall (fun c : Category => safe_name c.1 = c.1) all_categories /\
  NoDup (concat (map (fun c : Category => category_files c.1) all_categories)) /\
  Forall (fun f => scanned f = true)
    (concat (map (fun c : Category => category_files c.1) all_categories)).
Proof.
  split; [|split; [|split; [done|split; [|split; [|split]]]]].
  - intros n. split.
    + intros [cats Hn]. apply elem_of_list_to_map_2 in Hn.
      repeat (apply elem_of_cons in Hn as [Hn|Hn];
              [injection Hn as -> _; lia|]).
      by apply elem_of_nil in Hn.
    + intros Hn.
      destruct n as [|[|[|[|[|[|n]]]]]]; try lia; by vm_compute; eexists.
  - intros n cats Hn. apply elem_of_list_to_map_2 in Hn.
    unfold all_categories. intros c Hc. rewrite !elem_of_app.
    repeat (apply elem_of_cons in Hn as [Hn|Hn];
            [injection Hn as _ ->; tauto|]).
    by apply elem_of_nil in Hn.
  - apply (bool_decide_unpack _). by vm_compute.
  - apply Forall_forall. intros c Hc.
    apply (bool_decide_unpack _).
    revert c Hc. apply Forall_forall.
    apply (bool_decide_unpack _). by vm_compute.
  - apply (bool_decide_unpack _). by vm_compute.
  - apply Forall_forall. intros f Hf.
    revert f Hf. apply Forall_forall.
    apply (bool_decide_unpack _). by vm_compute.
Qed.

(** ** Files a category step may touch *)

Lemma replay_lookup_other other t : forall d,
  other ∉ map fst (writes t) ->
  fs_lookup other (replay t d) = fs_lookup other d.
Proof.
  induction t as [|e t IH]; intros d Hother; [done|].
  destruct e as [| | |n g]; cbn [replay foldl writes map] in *;
    try (by apply IH).
  apply not_elem_of_cons in Hother as [Hne Hother]. cbn [fst] in Hne.
  change (fs_lookup other (replay t (fs_write n g d)) = fs_lookup other d).
  rewrite IH by done. apply fs_lookup_write_ne. congruence.
Qed.

Lemma saved_file_names name suffix flag ts all_items :
  Forall (fun nf : string * file => nf.1 = safe_name name +:+ suffix)
    (saved_file name suffix flag ts all_items) /\
  (length (saved_file name suffix flag ts all_items) <= 1)%nat.
Proof.
  destruct all_items; split; cbn; try lia; [apply Forall_nil_2|].
  apply Forall_cons. split; [done|apply Forall_nil_2].
Qed.

Lemma sub_files_names name ranges : forall parts stamps,
  Forall (fun nf : string * file =>
            exists r : Z * Z,
              r ∈ ranges /\
              nf.1 = safe_name (sub_category_name name r.1 r.2) +:+ ".json")
    (sub_files name ranges parts stamps) /\
  (length (sub_files name ranges parts stamps) <= length ranges)%nat.
Proof.
  induction ranges as [|[mn mx] ranges IH]; intros [|p parts] [|ts stamps];
    try (split; [apply Forall_nil_2|cbn; lia]).
  cbn [sub_files]. destruct (IH parts stamps) as [IH1 IH2].
  destruct (saved_file_names (sub_category_name name mn mx) ".json" false
              ts p) as [H1 H2].
  split.
  - apply Forall_app. split.
    + eapply Forall_impl; [exact H1|]. intros nf Hnf.
      exists (mn, mx). split; [by left|done].
    + eapply Forall_impl; [exact IH1|]. intros nf (r & Hr & Hnf).
      exists r. split; [by right|done].
  - rewrite length_app. cbn [length]. lia.
Qed.

Lemma sub_file_in_category_files name (r : Z * Z) :
  r ∈ level_ranges ->
  safe_name (sub_category_name name r.1 r.2) +:+ ".json"
  ∈ category_files name.
Proof.
  intros Hr. unfold category_files. do 2 right.
  apply list_elem_of_fmap. exists r. split; [by destruct r|done].
Qed.

Section OwnFiles.

Variable env : Environment.
Variable K : nat.
Hypothesis Hbounded : rate_limit_bounded env K.

Lemma scrape_category_files fuel name filters flag w :
  (K + 2 <= fuel)%nat ->
  exists all_items t w',
    scrape_category env fuel name filters flag w = Ret all_items w' /\
    trace w' = trace w ++ t /\ fs w' = replay t (fs w) /\
    Forall (fun nf : string * file => nf.1 ∈ category_files name) (writes t) /\
    (length (writes t) <= 11)%nat.
Proof.
  intros Hfuel.
  destruct (search_runs env K Hbounded fuel filters name w ltac:(lia))
    as (k & w1 & _ & Hrun1 & Ht1 & Hfs1).
  destruct (search_answer _) as [[ids q] total].
  destruct ((100 <=? length ids)%nat && (100 <? total) && flag) eqn:Hcond.
  - apply andb_true_iff in Hcond as [Hcond ->].
    apply andb_true_iff in Hcond as [Hfull Htotal].
    apply Nat.leb_le in Hfull. apply Z.ltb_lt in Htotal.
    destruct (scrape_category_subdivided env K fuel name filters w ids q
                total w1 Hbounded Hfuel Hrun1 Hfull Htotal)
      as (parts & stamps & ts & t & w2 & w' & Hrun & _ & _ & Ht & Hfs & Hw & _).
    exists (concat parts), (retry_trace (EvSearch filters) k ++ t), w'.
    split; [done|]. split; [by rewrite Ht, Ht1, app_assoc|].
    split; [by rewrite replay_app, Hfs, Hfs1|].
    rewrite writes_app, writes_retry_trace by done. cbn [app]. rewrite Hw.
    destruct (sub_files_names name level_ranges parts stamps) as [Hs1 Hs2].
    destruct (saved_file_names name "_COMBINED.json" true ts (concat parts))
      as [Hc1 Hc2].
    split.
    + apply Forall_app. split.
      * eapply Forall_impl; [exact Hs1|]. intros nf (r & Hr & ->).
        by apply sub_file_in_category_files.
      * eapply Forall_impl; [exact Hc1|]. intros nf ->.
        unfold category_files. right. by left.
    + rewrite length_app. cbn [length level_ranges] in Hs2. lia.
  - destruct (scrape_category_leaf env K Hbounded fuel name filters flag
                w ids q total w1 ltac:(lia) Hrun1 Hcond)
      as (all_items & tf & w' & Hrun & Ht & Hfs & _ & [ts Hw] & _).
    exists all_items, (retry_trace (EvSearch filters) k ++ tf), w'.
    split; [done|]. split; [by rewrite Ht, Ht1, app_assoc|].
    split; [by rewrite replay_app, Hfs, Hfs1|].
    rewrite writes_app, writes_retry_trace by done. cbn [app]. rewrite Hw.
    destruct (saved_file_names name ".json" false ts all_items) as [Hc1 Hc2].
    split; [|lia].
    eapply Forall_impl; [exact Hc1|]. intros nf ->.
    unfold category_files. by left.
Qed.

End OwnFiles.

(** X6. Under a bounded rate limit [scrape_category] returns, with or
    without subdivision, having written at most eleven files, each under one
    of the names of its own category; every other file of the directory is
    left as it was. *)
Theorem scrape_category_writes_own_files env K fuel name filters flag w
    (Hbounded : rate_limit_bounded env K) (Hfuel : (K + 2 <= fuel)%nat) :
  exists all_items t w',
    scrape_category env fuel name filters flag w = Ret all_items w' /\
    trace w' = trace w ++ t /\
    Forall (fun nf : string * file => nf.1 ∈ category_files name) (writes t) /\
    (length (writes t) <= 11)%nat /\
    forall other, other ∉ category_files name ->
      fs_lookup other (fs w') = fs_lookup other (fs w).
Proof.
  destruct (scrape_category_files env K Hbounded fuel name filters flag w
              Hfuel)
    as (all_items & t & w' & Hrun & Ht & Hfs & Hnames & Hlen).
  exists all_items, t, w'. do 4 (split; [done|]).
  intros other Hother. rewrite Hfs. apply replay_lookup_other.
  intros Hin. apply list_elem_of_fmap in Hin as (nf & -> & Hnf).
  rewrite Forall_forall in Hnames. by apply Hother, Hnames.
Qed.

Lemma scrape_category_writes_own_files_witness :
  exists all_items w',
    scrape_category overflow_env 3 "Rare_0-1c" rare_0_1 true orphan_world
    = Ret all_items w' /\
    fs_lookup "Rare_0-1c.json" (fs w')
    = fs_lookup "Rare_0-1c.json" (fs orphan_world) /\
    fs_lookup "Unique_0-5c.json" (fs w') = None.
Proof.
  destruct (scrape_category_writes_own_files overflow_env 1 3 "Rare_0-1c"
              rare_0_1 true orphan_world overflow_bounded (le_n 3))
    as (all_items & t & w' & Hrun & Ht & _ & _ & Hother).
  exists all_items, w'. split; [exact Hrun|].
  split; [|apply Hother; apply (bool_decide_unpack _); by vm_compute].
  vm_compute in Hrun. injection Hrun as _ <-. reflexivity.
Defined.

(** ** When the aggregator raises *)

Lemma master_loop_raises entries : forall st w e w',
  master_loop entries st w = Raise e w' <->
  e = JSONDecodeError /\ w' = w /\ Exists undecodable entries.
Proof.
  induction entries as [|[filename f] entries IH]; intros st w e w'.
  { split; [done|]. intros (_ & _ & Hex). by apply Exists_nil in Hex. }
  cbn [master_loop]. rewrite Exists_cons. unfold undecodable at 1.
  cbn [fst snd].
  destruct (scanned filename) eqn:Hs.
  - destruct f.
    + split; [intros [= <- <-]; tauto|]. by intros (-> & -> & _).
    + rewrite IH. split; [tauto|]. intros (? & ? & [[_ ?]|?]); [done|tauto].
    + rewrite IH. split; [tauto|]. intros (? & ? & [[_ ?]|?]); [done|tauto].
    + rewrite IH. split; [tauto|]. intros (? & ? & [[_ ?]|?]); [done|tauto].
  - rewrite IH. split; [tauto|]. intros (? & ? & [[? _]|?]); [done|tauto].
Qed.

Lemma master_loop_terminates entries : forall st w,
  master_loop entries st w <> OutOfFuel.
Proof.
  induction entries as [|[filename f] entries IH]; intros st w; [done|].
  cbn [master_loop].
  destruct (scanned filename); [destruct f; [done|..]|]; apply IH.
Qed.

Lemma create_master_file_cases env w :
  (forall e w',
     create_master_file env w = Raise e w' <->
     e = JSONDecodeError /\ w' = w /\ Exists undecodable (fs w)) /\
  create_master_file env w <> OutOfFuel.
Proof.
  unfold create_master_file, bind. split.
  - intros e w'. rewrite <- master_loop_raises with (st := ([], ∅)).
    destruct (master_loop (fs w) ([], ∅) w) as [[m s] w1|e1 w1|];
      split; intros H; try discriminate H; by injection H as -> ->.
  - pose proof (master_loop_terminates (fs w) ([], ∅) w) as Hterm.
    by destruct (master_loop (fs w) ([], ∅) w) as [[m s] w1|e1 w1|].
Qed.

(** ** What a session leaves behind *)

Section SessionExact.

Variable env : Environment.
Variable K : nat.
Hypothesis Hbounded : rate_limit_bounded env K.

Lemma process_category_exact fuel num_categories cat_num name filters st w :
  (K + 2 <= fuel)%nat ->
  exists st' w',
    process_category env fuel num_categories cat_num name filters st w
    = Ret st' w' /\
    completed st' = completed st ∪ {[name]} /\ seen st ⊆ seen st' /\
    load_progress w' = Ret (completed st', seen st') w' /\
    forall other, other <> PROGRESS_FILE -> other ∉ category_files name ->
      fs_lookup other (fs w') = fs_lookup other (fs w).
Proof.
  intros Hfuel.
  destruct (scrape_category_files env K Hbounded fuel name filters true
              (tick w) Hfuel)
    as (all_items & t & w1 & Hrun & Ht & Hfs & Hnames & _).
  destruct (track_items_seen all_items (seen st) (all_items_collected st) O)
    as [Hsub _].
  destruct (foldl track_item (seen st, all_items_collected st, O) all_items)
    as [[seen_ids collected] new_items] eqn:Htrack.
  cbn [fst] in Hsub.
  set (doc := progress_doc (completed st ∪ {[name]}) seen_ids
                (clock env (clock_reads w1))).
  set (w_saved := mkWorld (fs_write PROGRESS_FILE doc (fs w1)) (requests w1)
                    (S (clock_reads w1))
                    (trace w1 ++ [EvWrite PROGRESS_FILE doc])).
  set (w' := if (cat_num <? num_categories)%nat
             then log (EvSleep DELAY_BETWEEN_SEARCHES) w_saved else w_saved).
  assert (fs w' = fs_write PROGRESS_FILE doc (fs w1)) as Hfs'
    by (unfold w'; by destruct (cat_num <? num_categories)%nat).
  exists (mkSession (completed st ∪ {[name]}) seen_ids collected), w'.
  split; [|split; [done|split; [done|split]]].
  - unfold process_category. unfold bind at 1. unfold now at 1.
    unfold bind at 1. rewrite Hrun, Htrack.
    unfold bind, save_progress, now, write_file, sleep, ret, bind, w'.
    by destruct (cat_num <? num_categories)%nat.
  - unfold load_progress. rewrite Hfs', fs_lookup_write_eq.
    unfold doc, progress_doc. cbn.
    by rewrite !list_to_set_elements_L.
  - intros other Hne Hother. rewrite Hfs'.
    rewrite fs_lookup_write_ne by congruence.
    rewrite Hfs. apply replay_lookup_other.
    intros Hin. apply list_elem_of_fmap in Hin as (nf & -> & Hnf).
    rewrite Forall_forall in Hnames. by apply Hother, Hnames.
Qed.

Lemma session_loop_exact fuel num_categories categories :
  forall cat_num st w,
  (K + 2 <= fuel)%nat ->
  load_progress w = Ret (completed st, seen st) w ->
  exists st' w',
    session_loop env fuel num_categories cat_num categories st w
    = Ret st' w' /\
    completed st' = completed st ∪ list_to_set (map fst categories) /\
    seen st ⊆ seen st' /\
    load_progress w' = Ret (completed st', seen st') w' /\
    forall other, other <> PROGRESS_FILE ->
      (forall c, c ∈ categories -> other ∉ category_files c.1) ->
      fs_lookup other (fs w') = fs_lookup other (fs w).
Proof.
  induction categories as [|[name filters] categories IH];
    intros cat_num st w Hfuel Hload.
  - exists st, w. split; [done|]. split; [|done].
    cbn [map]. rewrite list_to_set_nil. by rewrite (right_id_L ∅ (∪)).
  - cbn [session_loop map fst]. rewrite list_to_set_cons.
    destruct (bool_decide (name ∈ completed st)) eqn:Hdone.
    + apply bool_decide_eq_true in Hdone.
      destruct (IH (S cat_num) st w Hfuel Hload)
        as (st' & w' & Hrun & HC & HS & Hload' & Hframe).
      exists st', w'. split; [done|].
      split.
      { rewrite HC. apply set_eq. intros x.
        rewrite !elem_of_union, elem_of_singleton.
        split; [tauto|]. intros [?|[->|?]]; tauto. }
      do 2 (split; [done|]).
      intros other Hne Hother. apply Hframe; [done|].
      intros c Hc. apply Hother. by right.
    + destruct (process_category_exact fuel num_categories cat_num name
                  filters st w Hfuel)
        as (st1 & w1 & Hrun1 & HC1 & HS1 & Hload1 & Hframe1).
      destruct (IH (S cat_num) st1 w1 Hfuel Hload1)
        as (st' & w' & Hrun & HC & HS & Hload' & Hframe).
      exists st', w'. unfold bind. rewrite Hrun1.
      split; [done|].
      split.
      { rewrite HC, HC1. apply set_eq. intros x.
        rewrite !elem_of_union. tauto. }
      split; [by etrans|]. split; [done|].
      intros other Hne Hother. rewrite Hframe.
      * apply Hframe1; [done|]. apply (Hother (name, filters)). by left.
      * done.
      * intros c Hc. apply Hother. by right.
Qed.

Lemma scrape_session_exact fuel session_number categories w
    loaded_completed loaded_seen :
  (K + 2 <= fuel)%nat ->
  load_progress w = Ret (loaded_completed, loaded_seen) w ->
  exists w' seen',
    scrape_session env fuel session_number categories w = Ret tt w' /\
    load_progress w'
    = Ret (loaded_completed ∪ list_to_set (map fst categories), seen') w' /\
    loaded_seen ⊆ seen' /\
    forall other, other <> PROGRESS_FILE ->
      (forall c, c ∈ categories -> other ∉ category_files c.1) ->
      fs_lookup other (fs w') = fs_lookup other (fs w).
Proof.
  intros Hfuel Hload.
  destruct (session_loop_exact fuel (length categories) categories 1%nat
              (mkSession loaded_completed loaded_seen []) (tick w) Hfuel)
    as (st' & w' & Hrun & HC & HS & Hload' & Hframe).
  { by apply (load_progress_ext w). }
  exists (tick w'), (seen st').
  split; [|split; [|done]].
  - unfold scrape_session, create_output_directory.
    unfold bind at 1. unfold ret at 1. unfold bind at 1. rewrite Hload.
    unfold bind at 1. unfold now at 1. unfold bind at 1. rewrite Hrun.
    reflexivity.
  - cbn [completed] in HC. rewrite <- HC. by apply (load_progress_ext w').
Qed.

End SessionExact.

Lemma scrape_session_all_completed env fuel session_number categories w
    loaded_completed loaded_seen :
  load_progress w = Ret (loaded_completed, loaded_seen) w ->
  (forall c, c ∈ categories -> c.1 ∈ loaded_completed) ->
  scrape_session env fuel session_number categories w = Ret tt (tick (tick w)).
Proof.
  intros Hload Hall. unfold scrape_session, create_output_directory.
  unfold bind at 1. unfold ret at 1. unfold bind at 1. rewrite Hload.
  unfold bind at 1. unfold now at 1. unfold bind at 1.
  by rewrite session_loop_all_completed.
Qed.

(** X9. Under a bounded rate limit, a session whose progress loads returns,
    and the progress store then holds exactly the loaded completed names
    together with the names of the session's categories, and a set of seen
    ids that contains the loaded one.  Every file that is neither the progress
    file nor one of the files of the session's categories is left as it
    was. *)
Theorem session_final_progress env K fuel session_number categories w
    loaded_completed loaded_seen
    (Hbounded : rate_limit_bounded env K) (Hfuel : (K + 2 <= fuel)%nat)
    (Hload : load_progress w = Ret (loaded_completed, loaded_seen) w) :
  exists w' seen',
    scrape_session env fuel session_number categories w = Ret tt w' /\
    load_progress w'
    = Ret (loaded_completed ∪ list_to_set (map fst categories), seen') w' /\
    loaded_seen ⊆ seen' /\
    forall other, other <> PROGRESS_FILE ->
      (forall c, c ∈ categories -> other ∉ category_files c.1) ->
      fs_lookup other (fs w') = fs_lookup other (fs w).
Proof. by apply (scrape_session_exact env K Hbounded). Qed.

Lemma session_final_progress_witness :
  exists w' seen',
    scrape_session overflow_env 3 1 [("Rare_0-1c", rare_0_1)] orphan_world
    = Ret tt w' /\
    load_progress w' = Ret (∅ ∪ list_to_set ["Rare_0-1c"], seen') w' /\
    fs_lookup "Unique_0-5c.json" (fs w') = None.
Proof.
  destruct (session_final_progress overflow_env 1 3 1
              [("Rare_0-1c", rare_0_1)] orphan_world ∅ ∅
              overflow_bounded (le_n 3) eq_refl)
    as (w' & seen' & Hrun & Hload & _ & Hother).
  exists w', seen'. split; [exact Hrun|]. split; [exact Hload|].
  apply (Hother "Unique_0-5c.json"); [done|].
  intros c Hc. apply list_elem_of_singleton in Hc. subst c.
  apply (bool_decide_unpack _). by vm_compute.
Defined.

(** X10. Running a session a second time does nothing: after a run that
    returned, the same session run again, against any server and with any
    fuel, sends no request, takes no sleep and writes no file; it only
    reads the clock twice. *)
Theorem session_rerun_is_noop env K fuel session_number categories w
    loaded_completed loaded_seen
    (Hbounded : rate_limit_bounded env K) (Hfuel : (K + 2 <= fuel)%nat)
    (Hload : load_progress w = Ret (loaded_completed, loaded_seen) w) :
  exists w',
    scrape_session env fuel session_number categories w = Ret tt w' /\
    forall env' fuel' session_number',
      scrape_session env' fuel' session_number' categories w'
      = Ret tt (tick (tick w')).
Proof.
  destruct (scrape_session_exact env K Hbounded fuel session_number
              categories w loaded_completed loaded_seen Hfuel Hload)
    as (w' & seen' & Hrun & Hload' & _ & _).
  exists w'. split; [done|]. intros env' fuel' session_number'.
  apply (scrape_session_all_completed env' fuel' session_number' categories
           w' _ _ Hload').
  intros c Hc. apply elem_of_union. right.
  apply elem_of_list_to_set, list_elem_of_fmap. by exists c.
Qed.

Lemma session_rerun_is_noop_witness :
  exists w',
    scrape_session busy_once_env 4 1 [("Rare_0-1c", rare_0_1)] fresh_world
    = Ret tt w' /\
    scrape_session nothing_env 0 1 [("Rare_0-1c", rare_0_1)] w'
    = Ret tt (tick (tick w')).
Proof.
  destruct (session_rerun_is_noop busy_once_env 2 4 1
              [("Rare_0-1c", rare_0_1)] fresh_world ∅ ∅
              busy_once_bounded (le_n 4) eq_refl)
    as (w' & Hrun & Hnoop).
  exists w'. split; [exact Hrun|]. apply Hnoop.
Defined.

(** ** The aggregator and the files it does not scan *)

Lemma master_loop_ret entries : forall st w r w',
  master_loop entries st w = Ret r w' ->
  w' = w /\ r = foldl master_item st (scanned_items entries).
Proof.
  induction entries as [|[filename f] entries IH]; intros st w r w' Hrun.
  - by injection Hrun as <- <-.
  - cbn [master_loop scanned_items] in *.
    destruct (scanned filename); [|by apply IH].
    rewrite foldl_app. destruct f; [done|..]; by apply IH.
Qed.

Lemma master_loop_any_world entries : forall st w w0 r,
  master_loop entries st w = Ret r w -> master_loop entries st w0 = Ret r w0.
Proof.
  induction entries as [|[filename f] entries IH]; intros st w w0 r Hrun.
  - by injection Hrun as <-.
  - cbn [master_loop] in *.
    destruct (scanned filename); [|by eapply IH].
    destruct f; [done|..]; by eapply IH.
Qed.

Lemma master_loop_write_unscanned name f d : forall st w,
  scanned name = false ->
  master_loop (fs_write name f d) st w = master_loop d st w.
Proof.
  intros st w Hname. revert st.
  induction d as [|[n g] d IH]; intros st.
  - cbn [fs_write master_loop]. by rewrite Hname.
  - cbn [fs_write]. destruct (String.eqb n name) eqn:Hn.
    + apply String.eqb_eq in Hn as ->. cbn [master_loop]. by rewrite Hname.
    + cbn [master_loop]. destruct (scanned n); [|apply IH].
      destruct g; [done|..]; apply IH.
Qed.

Lemma scanned_items_write_unscanned name f d :
  scanned name = false ->
  scanned_items (fs_write name f d) = scanned_items d.
Proof.
  intros Hname. induction d as [|[n g] d IH].
  - cbn [fs_write scanned_items]. by rewrite Hname.
  - cbn [fs_write]. destruct (String.eqb n name) eqn:Hn.
    + apply String.eqb_eq in Hn as ->. cbn [scanned_items]. by rewrite Hname.
    + cbn [scanned_items]. by rewrite IH.
Qed.

Lemma scanned_master x : scanned ("MASTER_" +:+ x) = false.
Proof.
  unfold scanned.
  replace (startswith ("MASTER_" +:+ x) "MASTER") with true by reflexivity.
  apply andb_false_r.
Qed.

Lemma fs_write_length name f d :
  fs_lookup name d <> None -> length (fs_write name f d) = length d.
Proof.
  induction d as [|[n g] d IH]; [done|].
  cbn [fs_lookup fs_write]. destruct (String.eqb n name); [done|].
  intros Hl. cbn [length]. by rewrite IH.
Qed.

(** What a run of the aggregator that returns has done. *)
Lemma create_master_file_ret env w w1 :
  create_master_file env w = Ret tt w1 ->
  let doc := FMaster (mkMasterDoc (length (master_of (fs w)))
                        (clock env (clock_reads w)) (master_of (fs w))) in
  master_loop (fs w) ([], ∅) w
  = Ret (foldl master_item ([], ∅) (scanned_items (fs w))) w /\
  fs w1 = fs_write (master_name (fs w)) doc (fs w) /\
  trace w1 = trace w ++ [EvWrite (master_name (fs w)) doc].
Proof.
  unfold create_master_file, bind. intros Hrun.
  destruct (master_loop (fs w) ([], ∅) w) as [r w0| |] eqn:E; [|done..].
  apply master_loop_ret in E as [-> ->].
  unfold master_name, master_of.
  destruct (foldl master_item ([], ∅) (scanned_items (fs w)))
    as [all_items seen_ids].
  by injection Hrun as <-.
Qed.

Lemma create_master_file_runs env w :
  master_loop (fs w) ([], ∅) w
  = Ret (foldl master_item ([], ∅) (scanned_items (fs w))) w ->
  exists w1, create_master_file env w = Ret tt w1.
Proof.
  intros E. unfold create_master_file, bind. rewrite E.
  destruct (foldl master_item ([], ∅) (scanned_items (fs w))). by eexists.
Qed.

(** The aggregator after a file it does not scan has been written. *)
Lemma create_master_file_after_write env env' w w1 ws name f :
  scanned name = false -> fs ws = fs_write name f (fs w) ->
  create_master_file env w = Ret tt w1 ->
  exists w2 ts,
    create_master_file env' ws = Ret tt w2 /\
    trace w2
    = trace ws ++ [EvWrite (master_name (fs w))
                     (FMaster (mkMasterDoc (length (master_of (fs w))) ts
                                 (master_of (fs w))))] /\
    fs w2
    = fs_write (master_name (fs w))
        (FMaster (mkMasterDoc (length (master_of (fs w))) ts
                    (master_of (fs w)))) (fs ws).
Proof.
  intros Hname Hfs Hrun.
  apply create_master_file_ret in Hrun as (Hloop & _ & _).
  assert (scanned_items (fs ws) = scanned_items (fs w)) as Hsame
    by (rewrite Hfs; by apply scanned_items_write_unscanned).
  destruct (create_master_file_runs env' ws) as [w2 Hrun2].
  { rewrite Hsame, Hfs, master_loop_write_unscanned by done.
    by apply (master_loop_any_world _ _ w). }
  exists w2, (clock env' (clock_reads ws)). split; [done|].
  apply create_master_file_ret in Hrun2 as (_ & Hfs2 & Ht2).
  unfold master_name, master_of in *. rewrite Hsame in Hfs2, Ht2. done.
Qed.

(** X11. Running the aggregator twice gives the same master file: the
    second run does not read the file the first one wrote, so it writes a
    file of the same name holding the same records, replacing the first
    instead of adding to the directory. *)
Theorem master_file_rerun env env' w w1
    (Hrun : create_master_file env w = Ret tt w1) :
  exists w2 doc1 doc2,
    trace w1 = trace w ++ [EvWrite (master_name (fs w)) (FMaster doc1)] /\
    create_master_file env' w1 = Ret tt w2 /\
    trace w2 = trace w1 ++ [EvWrite (master_name (fs w)) (FMaster doc2)] /\
    master_items doc2 = master_items doc1 /\
    total_unique_items doc2 = total_unique_items doc1 /\
    length (fs w2) = length (fs w1).
Proof.
  destruct (create_master_file_ret env w w1 Hrun) as (_ & Hfs1 & Ht1).
  destruct (create_master_file_after_write env env' w w1 w1 _ _
              (scanned_master _) Hfs1 Hrun)
    as (w2 & ts & Hrun2 & Ht2 & Hfs2).
  do 3 eexists. split; [exact Ht1|]. split; [exact Hrun2|].
  split; [exact Ht2|]. do 2 (split; [done|]).
  rewrite Hfs2. apply fs_write_length.
  rewrite Hfs1. unfold master_name. by rewrite fs_lookup_write_eq.
Qed.

Lemma master_file_rerun_witness :
  exists w1 w2,
    create_master_file busy_once_env two_files_world = Ret tt w1 /\
    create_master_file nothing_env w1 = Ret tt w2 /\
    length (fs w2) = length (fs w1).
Proof.
  destruct (create_master_file busy_once_env two_files_world)
    as [[] w1|e w1|] eqn:Hrun; [|vm_compute in Hrun; discriminate Hrun..].
  destruct (master_file_rerun busy_once_env nothing_env two_files_world w1
              Hrun)
    as (w2 & doc1 & doc2 & _ & Hrun2 & _ & _ & _ & Hlen).
  exists w1, w2. split; [reflexivity|]. split; [exact Hrun2|exact Hlen].
Defined.

(** X12. The aggregator does not depend on the progress store: saving any
    progress before aggregating changes neither the name of the master file
    nor the records it holds. *)
Theorem master_file_ignores_progress env env' w w1 completed_set seen_set
    (Hrun : create_master_file env w = Ret tt w1) :
  exists ws w2 doc1 doc2,
    save_progress env' completed_set seen_set w = Ret tt ws /\
    create_master_file env' ws = Ret tt w2 /\
    trace w1 = trace w ++ [EvWrite (master_name (fs w)) (FMaster doc1)] /\
    trace w2 = trace ws ++ [EvWrite (master_name (fs w)) (FMaster doc2)] /\
    master_items doc2 = master_items doc1 /\
    total_unique_items doc2 = total_unique_items doc1.
Proof.
  destruct (create_master_file_ret env w w1 Hrun) as (_ & _ & Ht1).
  destruct (runs_save_progress env' completed_set seen_set w)
    as (Hsave & _ & Hfs).
  destruct (create_master_file_after_write env env' w w1 _ PROGRESS_FILE _
              eq_refl Hfs Hrun)
    as (w2 & ts & Hrun2 & Ht2 & _).
  do 4 eexists. split; [exact Hsave|]. split; [exact Hrun2|].
  split; [exact Ht1|]. split; [exact Ht2|]. done.
Qed.

Lemma master_file_ignores_progress_witness :
  exists w1 ws w2 doc1 doc2,
    create_master_file busy_once_env two_files_world = Ret tt w1 /\
    save_progress nothing_env {["Rare_0-1c"]} ∅ two_files_world = Ret tt ws /\
    create_master_file nothing_env ws = Ret tt w2 /\
    trace w1
    = trace two_files_world
      ++ [EvWrite (master_name (fs two_files_world)) (FMaster doc1)] /\
    trace w2
    = trace ws ++ [EvWrite (master_name (fs two_files_world)) (FMaster doc2)] /\
    master_items doc2 = master_items doc1.
Proof.
  destruct (create_master_file busy_once_env two_files_world)
    as [[] w1|e w1|] eqn:Hrun; [|vm_compute in Hrun; discriminate Hrun..].
  destruct (master_file_ignores_progress busy_once_env nothing_env
              two_files_world w1 {["Rare_0-1c"]} ∅ Hrun)
    as (ws & w2 & doc1 & doc2 & Hsave & Hrun2 & Ht1 & Ht2 & Hitems & _).
  exists w1, ws, w2, doc1, doc2. split; [reflexivity|].
  split; [exact Hsave|]. split; [exact Hrun2|]. split; [exact Ht1|].
  split; [exact Ht2|exact Hitems].
Defined.

(** ** Deduplication: ids, counts and enumeration order *)

Lemma id_set_app l1 l2 : id_set (l1 ++ l2) = id_set l1 ∪ id_set l2.
Proof.
  unfold id_set, nonempty_ids. by rewrite omap_app, list_to_set_app_L.
Qed.

Lemma id_set_kept item i :
  item_id item = Some i -> truthy i = true -> id_set [item] = {[i]}.
Proof.
  intros Hid Hti. unfold id_set, nonempty_ids. cbn.
  rewrite Hid, Hti. cbn. by rewrite (right_id_L ∅ (∪)).
Qed.

Lemma id_set_dropped item :
  match item_id item with Some i => truthy i = false | None => True end ->
  id_set [item] = ∅.
Proof.
  unfold id_set, nonempty_ids. cbn.
  destruct (item_id item) as [i|]; [intros ->|]; done.
Qed.

(** One step of the aggregator's inner loop: the set of seen ids gains the
    id of the record, the master list gains the record exactly when the set
    grows. *)
Lemma master_item_step all_items seen_ids item :
  exists all_items' seen_ids',
    master_item (all_items, seen_ids) item = (all_items', seen_ids') /\
    seen_ids' = seen_ids ∪ id_set [item] /\
    id_set all_items' = id_set all_items ∪ (seen_ids' ∖ seen_ids) /\
    (length all_items' + size seen_ids = length all_items + size seen_ids')%nat.
Proof.
  unfold master_item. destruct (item_id item) as [i|] eqn:Hid.
  - destruct (truthy i) eqn:Hti; cbn [andb].
    + destruct (bool_decide (i ∈ seen_ids)) eqn:Hmem; cbn [negb].
      * apply bool_decide_eq_true in Hmem. do 2 eexists. split; [done|].
        rewrite (id_set_kept item i) by done.
        assert (seen_ids ∪ {[i]} = seen_ids) as ->.
        { apply set_eq. intros x. rewrite elem_of_union, elem_of_singleton.
          split; [intros [?| ->]; done|tauto]. }
        split; [done|]. split; [|done].
        apply set_eq. intros x.
        rewrite elem_of_union, elem_of_difference. tauto.
      * apply bool_decide_eq_false in Hmem. do 2 eexists. split; [done|].
        rewrite (id_set_kept item i) by done. split; [done|]. split.
        -- rewrite id_set_app, (id_set_kept item i) by done.
           apply set_eq. intros x.
           rewrite !elem_of_union, elem_of_difference, elem_of_union,
             elem_of_singleton.
           split; [|tauto]. intros [?| ->]; [tauto|]. right. tauto.
        -- rewrite length_app, size_union, size_singleton; [cbn; lia|].
           intros x Hx Hx'. apply elem_of_singleton in Hx'. by subst x.
    + do 2 eexists. split; [done|].
      rewrite id_set_dropped by by rewrite Hid.
      rewrite (right_id_L ∅ (∪)). split; [done|]. split; [|done].
      apply set_eq. intros x. rewrite elem_of_union, elem_of_difference. tauto.
  - do 2 eexists. split; [done|].
    rewrite id_set_dropped by by rewrite Hid.
    rewrite (right_id_L ∅ (∪)). split; [done|]. split; [|done].
    apply set_eq. intros x. rewrite elem_of_union, elem_of_difference. tauto.
Qed.

Lemma master_fold_ids records : forall all_items seen_ids,
  id_set all_items ⊆ seen_ids ->
  exists all_items' seen_ids',
    foldl master_item (all_items, seen_ids) records
    = (all_items', seen_ids') /\
    seen_ids' = seen_ids ∪ id_set records /\
    id_set all_items' = id_set all_items ∪ (seen_ids' ∖ seen_ids) /\
    (length all_items' + size seen_ids = length all_items + size seen_ids')%nat.
Proof.
  induction records as [|x records IH]; intros all_items seen_ids Hsub.
  - exists all_items, seen_ids. split; [done|].
    change (id_set []) with (∅ : gset string).
    split; [by rewrite (right_id_L ∅ (∪))|]. split; [|done].
    apply set_eq. intros i. rewrite elem_of_union, elem_of_difference. tauto.
  - cbn [foldl].
    destruct (master_item_step all_items seen_ids x)
      as (a1 & s1 & -> & Hs1 & Ha1 & Hn1).
    destruct (IH a1 s1) as (a2 & s2 & Hfold & Hs2 & Ha2 & Hn2).
    { rewrite Ha1. intros i. rewrite elem_of_union, elem_of_difference.
      intros [Hi|[Hi _]]; [|done]. rewrite Hs1. apply elem_of_union. left.
      by apply Hsub. }
    exists a2, s2. split; [done|]. split; [|split; [|lia]].
    + rewrite Hs2, Hs1. change (x :: records) with ([x] ++ records).
      rewrite id_set_app. apply set_eq. intros i. rewrite !elem_of_union.
      tauto.
    + rewrite Ha2, Ha1. apply set_eq. intros i.
      rewrite !elem_of_union, !elem_of_difference. split.
      * intros [[Hi|[Hi Hn]]|[Hi Hn]]; [tauto| |].
        -- right. split; [|done]. rewrite Hs2. apply elem_of_union. by left.
        -- right. split; [done|]. intros Hin. apply Hn. rewrite Hs1.
           apply elem_of_union. by left.
      * intros [Hi|[Hi Hn]]; [tauto|].
        destruct (decide (i ∈ s1)) as [Hin|Hnin]; tauto.
Qed.

(** The aggregator on a directory: as many records as distinct non-empty
    ids, and these ids are those of the scanned files. *)
Lemma master_of_ids d :
  id_set (master_of d) = id_set (scanned_items d) /\
  length (master_of d) = size (id_set (scanned_items d)).
Proof.
  unfold master_of.
  destruct (master_fold_ids (scanned_items d) [] ∅)
    as (a & s & -> & Hs & Ha & Hn); [done|].
  cbn [fst]. rewrite (left_id_L ∅ (∪)) in Hs. subst s.
  change (id_set []) with (∅ : gset string) in Ha.
  rewrite (left_id_L ∅ (∪)), difference_empty_L in Ha.
  rewrite size_empty in Hn. cbn [length] in Hn. split; [done|lia].
Qed.

Lemma track_item_as_master seen_ids collected n item :
  exists collected' seen_ids' n',
    track_item (seen_ids, collected, n) item = (seen_ids', collected', n') /\
    master_item (collected, seen_ids) item = (collected', seen_ids') /\
    (n' + length collected = n + length collected')%nat.
Proof.
  unfold track_item, master_item. destruct (item_id item) as [i|].
  - destruct (truthy i && negb (bool_decide (i ∈ seen_ids))).
    + do 3 eexists. split; [done|]. split; [done|].
      rewrite length_app. cbn. lia.
    + by do 3 eexists.
  - by do 3 eexists.
Qed.

Lemma track_items_as_master records : forall seen_ids collected n,
  exists collected' seen_ids' n',
    foldl track_item (seen_ids, collected, n) records
    = (seen_ids', collected', n') /\
    foldl master_item (collected, seen_ids) records = (collected', seen_ids') /\
    (n' + length collected = n + length collected')%nat.
Proof.
  induction records as [|x records IH]; intros seen_ids collected n.
  - by exists collected, seen_ids, n.
  - cbn [foldl].
    destruct (track_item_as_master seen_ids collected n x)
      as (c1 & s1 & n1 & -> & -> & Hn1).
    destruct (IH s1 c1 n1) as (c2 & s2 & n2 & -> & -> & Hn2).
    exists c2, s2, n2. do 2 (split; [done|]). lia.
Qed.

(** X13. The session and the aggregator deduplicate alike: over the same
    records and the same set of known ids, the loop of [scrape_session]
    collects the records the loop of [create_master_file] keeps and ends
    with the same set of ids.  That set is the known ids together with the
    non-empty ids of the records, and the counter [new_items] grows by the
    number of records collected, which is the number of ids gained. *)
Theorem tracker_agrees_with_aggregator records seen_ids collected n
    (Hknown : id_set collected ⊆ seen_ids) :
  exists collected' seen_ids' n',
    foldl track_item (seen_ids, collected, n) records
    = (seen_ids', collected', n') /\
    foldl master_item (collected, seen_ids) records = (collected', seen_ids') /\
    seen_ids' = seen_ids ∪ id_set records /\
    (n' + length collected = n + length collected')%nat /\
    (n' + size seen_ids = n + size seen_ids')%nat.
Proof.
  destruct (track_items_as_master records seen_ids collected n)
    as (c & s & n' & Htrack & Hmaster & Hn).
  destruct (master_fold_ids records collected seen_ids Hknown)
    as (c0 & s0 & Hfold & Hs & _ & Hsize).
  rewrite Hmaster in Hfold. injection Hfold as <- <-.
  exists c, s, n'. do 3 (split; [done|]). split; lia.
Qed.

Lemma tracker_agrees_with_aggregator_witness :
  exists collected' seen_ids' n',
    foldl track_item (∅, [], O) (records_of ["a"; "b"; "a"])
    = (seen_ids', collected', n') /\
    foldl master_item ([], ∅) (records_of ["a"; "b"; "a"])
    = (collected', seen_ids') /\
    (n' + size (∅ : gset string) = 0 + size seen_ids')%nat.
Proof.
  destruct (tracker_agrees_with_aggregator (records_of ["a"; "b"; "a"])
              ∅ [] O (empty_subseteq _))
    as (c & s & n' & Htrack & Hmaster & _ & _ & Hsize).
  exists c, s, n'. split; [exact Htrack|]. split; [exact Hmaster|exact Hsize].
Defined.

Lemma scanned_items_perm d d' :
  d ≡ₚ d' -> scanned_items d ≡ₚ scanned_items d'.
Proof.
  induction 1 as [|[n f] d d' _ IH|[n f] [n' f'] d|d1 d2 d3 _ IH1 _ IH2].
  - done.
  - cbn [scanned_items]. destruct (scanned n); [by rewrite IH|done].
  - cbn [scanned_items]. destruct (scanned n), (scanned n'); try done.
    rewrite !app_assoc. apply Permutation_app_tail, Permutation_app_comm.
  - by etrans.
Qed.

Lemma id_set_perm l l' : l ≡ₚ l' -> id_set l = id_set l'.
Proof.
  intros Hperm. unfold id_set, nonempty_ids.
  apply list_to_set_perm_L. by rewrite Hperm.
Qed.

(** X14. The order in which the directory is listed does not change how
    many records the master file holds, nor its name, nor the set of ids in
    it: two listings of the same files give master files that can differ
    only in which record stands for an id. *)
Theorem master_file_order_independent env env' w w' w1
    (Hperm : fs w ≡ₚ fs w')
    (Hrun : create_master_file env w = Ret tt w1) :
  exists w1' doc doc',
    create_master_file env' w' = Ret tt w1' /\
    trace w1 = trace w ++ [EvWrite (master_name (fs w)) (FMaster doc)] /\
    trace w1' = trace w' ++ [EvWrite (master_name (fs w)) (FMaster doc')] /\
    total_unique_items doc' = total_unique_items doc /\
    length (master_items doc') = length (master_items doc) /\
    id_set (master_items doc') = id_set (master_items doc).
Proof.
  destruct (create_master_file_ret env w w1 Hrun) as (_ & _ & Ht1).
  assert (exists w1', create_master_file env' w' = Ret tt w1') as [w1' Hrun'].
  { destruct (create_master_file env' w') as [[] w2|e w2|] eqn:E.
    - by eexists.
    - exfalso.
      apply (create_master_file_cases env' w') in E as (_ & _ & Hex).
      pose proof (master_loop_raises (fs w) ([], ∅) w JSONDecodeError w) as Hr.
      destruct (create_master_file_ret env w w1 Hrun) as (Hloop & _).
      rewrite Hloop in Hr. destruct Hr as [_ Hr].
      assert (Exists undecodable (fs w)) as Hex'
        by (rewrite Hperm; exact Hex).
      specialize (Hr (conj eq_refl (conj eq_refl Hex'))). discriminate Hr.
    - exfalso. by apply (create_master_file_cases env' w') in E. }
  destruct (create_master_file_ret env' w' w1' Hrun') as (_ & _ & Ht1').
  destruct (master_of_ids (fs w)) as [Hids Hlen].
  destruct (master_of_ids (fs w')) as [Hids' Hlen'].
  assert (id_set (scanned_items (fs w')) = id_set (scanned_items (fs w)))
    as Hsame by (apply id_set_perm, scanned_items_perm; by symmetry).
  assert (length (master_of (fs w')) = length (master_of (fs w))) as Hl
    by (by rewrite Hlen, Hlen', Hsame).
  assert (master_name (fs w') = master_name (fs w)) as Hname
    by (unfold master_name; by rewrite Hl).
  rewrite Hname, Hl in Ht1'.
  do 3 eexists. split; [exact Hrun'|]. split; [exact Ht1|].
  split; [exact Ht1'|]. cbn [total_unique_items master_items].
  split; [done|]. split; [done|]. by rewrite Hids, Hids', Hsame.
Qed.

Lemma master_file_order_independent_witness :
  exists w1 w1' doc doc',
    create_master_file busy_once_env two_files_world = Ret tt w1 /\
    create_master_file nothing_env reversed_world = Ret tt w1' /\
    trace w1
    = trace two_files_world
      ++ [EvWrite (master_name (fs two_files_world)) (FMaster doc)] /\
    trace w1'
    = trace reversed_world
      ++ [EvWrite (master_name (fs two_files_world)) (FMaster doc')] /\
    id_set (master_items doc') = id_set (master_items doc).
Proof.
  assert (fs two_files_world ≡ₚ fs reversed_world) as Hperm
    by (symmetry; apply reverse_Permutation).
  destruct (create_master_file busy_once_env two_files_world)
    as [[] w1|e w1|] eqn:Hrun; [|vm_compute in Hrun; discriminate Hrun..].
  destruct (master_file_order_independent busy_once_env nothing_env
              two_files_world reversed_world w1 Hperm Hrun)
    as (w1' & doc & doc' & Hrun' & Ht & Ht' & _ & _ & Hids).
  exists w1, w1', doc, doc'. split; [reflexivity|]. split; [exact Hrun'|].
  split; [exact Ht|]. split; [exact Ht'|exact Hids].
Defined.

(** ** The basic scraper *)

Section BasicScraper.

Import Basic.

Variable srv : Server.

Lemma search_items_sends query_params s :
  state_of (search_items srv query_params s)
  = mkState (S (sent s)) (actions s ++ [Post query_params]).
Proof.
  unfold search_items.
  destruct (post srv _ _) as [status_code [data|]|];
    try destruct (status_code =? 200); done.
Qed.

Lemma fetch_item_details_sends item_ids query_id s :
  state_of (fetch_item_details srv item_ids query_id s)
  = mkState (S (sent s)) (actions s ++ [Get (take 10 item_ids) query_id]).
Proof.
  unfold fetch_item_details.
  destruct (get srv _ _ _) as [status_code [data|]|];
    try destruct (status_code =? 200); done.
Qed.

(** The state [simple_search] ends in once the search has returned. *)
Lemma simple_search_after_search s item_ids query_id s1 :
  search_items srv simple_query s = Ok (item_ids, query_id) s1 ->
  state_of (simple_search srv s)
  = mkState (S (sent s1))
      (actions s1
       ++ (if bool_decide (item_ids = []) then [] else [Sleep 1])
       ++ [Get (take 10 item_ids) query_id]).
Proof.
  intros Hsearch. unfold simple_search, andthen. rewrite Hsearch.
  destruct item_ids as [|i item_ids].
  - unfold pure.
    pose proof (fetch_item_details_sends [] query_id s1) as Hf.
    destruct (fetch_item_details srv [] query_id s1) as [[data|] s2|e s2];
      cbn [state_of print_items_summary] in *; by subst s2.
  - unfold do_sleep.
    pose proof (fetch_item_details_sends (i :: item_ids) query_id
                  (mkState (sent s1) (actions s1 ++ [Sleep 1]))) as Hf.
    destruct (fetch_item_details srv (i :: item_ids) query_id _)
      as [[data|] s2|e s2];
      cbn [state_of print_items_summary sent actions] in *; subst s2;
      cbn [state_of pure]; by rewrite <- app_assoc.
Qed.

End BasicScraper.

(** X15. [simple_search] never sends more than two requests, whatever the
    server answers, a 429 included: one search, and unless the search
    raised, one fetch for at most the first ten ids found.  The fetch is
    sent even when no id was found, with an empty id list; the one-second
    sleep is taken exactly when ids were found. *)
Theorem simple_search_sends_two_requests srv s :
  let final := Basic.state_of (Basic.simple_search srv s) in
  (exists e s1,
     Basic.search_items srv Basic.simple_query s = Basic.Err e s1 /\
     Basic.simple_search srv s = Basic.Err e s1 /\
     Basic.actions final = Basic.actions s ++ [Basic.Post Basic.simple_query] /\
     Basic.sent final = S (Basic.sent s))
  \/
  (exists item_ids query_id s1,
     Basic.search_items srv Basic.simple_query s
     = Basic.Ok (item_ids, query_id) s1 /\
     Basic.actions final
     = Basic.actions s
       ++ [Basic.Post Basic.simple_query]
       ++ (if bool_decide (item_ids = []) then [] else [Basic.Sleep 1])
       ++ [Basic.Get (take 10 item_ids) query_id] /\
     (length (take 10 item_ids) <= 10)%nat /\
     Basic.sent final = S (S (Basic.sent s))).
Proof.
  intros final.
  pose proof (search_items_sends srv Basic.simple_query s) as Hs.
  destruct (Basic.search_items srv Basic.simple_query s)
    as [[item_ids query_id] s1|e s1] eqn:Hsearch; cbn [Basic.state_of] in Hs.
  - right. exists item_ids, query_id, s1. split; [done|].
    unfold final.
    rewrite (simple_search_after_search srv s item_ids query_id s1 Hsearch).
    subst s1. cbn [Basic.actions Basic.sent].
    split; [by rewrite <- app_assoc|]. split; [|done].
    rewrite length_take. lia.
  - left. exists e, s1.
    assert (Basic.simple_search srv s = Basic.Err e s1) as Hrun
      by (unfold Basic.simple_search, Basic.andthen; by rewrite Hsearch).
    split; [done|]. split; [done|].
    unfold final. rewrite Hrun. cbn [Basic.state_of]. by subst s1.
Qed.

(** X16. [simple_search] returns exactly when the search did not raise and
    the fetch was answered with a decoded 200.  Any other status of the
    fetch, a 429 included, is not retried and makes the summary fail with
    an attribute error on the missing document. *)
Theorem simple_search_outcome srv s item_ids query_id s1
    (Hsearch : Basic.search_items srv Basic.simple_query s
               = Basic.Ok (item_ids, query_id) s1) :
  let final := Basic.state_of (Basic.simple_search srv s) in
  let answer := Basic.get srv (S (Basic.sent s)) (take 10 item_ids) query_id in
  (Basic.simple_search srv s = Basic.Ok tt final
   <-> exists data, answer = HttpResponse 200 (Some data)) /\
  (Basic.simple_search srv s = Basic.Err Basic.AttributeError final
   <-> exists status_code body,
         answer = HttpResponse status_code body /\ status_code <> 200) /\
  (Basic.simple_search srv s = Basic.Err Basic.DecodeError final
   <-> answer = HttpResponse 200 None) /\
  (Basic.simple_search srv s = Basic.Err Basic.TransportError final
   <-> answer = RequestException).
Proof.
  intros final answer. unfold final.
  pose proof (search_items_sends srv Basic.simple_query s) as Hs.
  rewrite Hsearch in Hs. cbn [Basic.state_of] in Hs.
  assert (Basic.sent s1 = S (Basic.sent s)) as Hsent by by subst s1.
  clear Hs. unfold answer. rewrite <- Hsent. clear final answer.
  unfold Basic.simple_search, Basic.andthen. rewrite Hsearch.
  assert (forall s2, Basic.sent s2 = Basic.sent s1 ->
            let r := Basic.andthen
                       (Basic.fetch_item_details srv item_ids query_id)
                       (Basic.print_items_summary) s2 in
            let answer := Basic.get srv (Basic.sent s1) (take 10 item_ids)
                            query_id in
            (r = Basic.Ok tt (Basic.state_of r)
             <-> exists data, answer = HttpResponse 200 (Some data)) /\
            (r = Basic.Err Basic.AttributeError (Basic.state_of r)
             <-> exists status_code body,
                   answer = HttpResponse status_code body /\
                   status_code <> 200) /\
            (r = Basic.Err Basic.DecodeError (Basic.state_of r)
             <-> answer = HttpResponse 200 None) /\
            (r = Basic.Err Basic.TransportError (Basic.state_of r)
             <-> answer = RequestException)) as Hfetch.
  { intros s2 Hs2. unfold Basic.andthen, Basic.fetch_item_details.
    rewrite Hs2.
    destruct (Basic.get srv (Basic.sent s1) (take 10 item_ids) query_id)
      as [status_code [data|]|]; [destruct (status_code =? 200) eqn:Hst..|];
      try (apply Z.eqb_eq in Hst as ->); try apply Z.eqb_neq in Hst;
      cbn [Basic.state_of Basic.print_items_summary]; unfold Basic.pure;
      cbn [Basic.state_of]; repeat split; intros H;
      repeat match goal with
             | H : exists _, _ |- _ => destruct H
             | H : _ /\ _ |- _ => destruct H
             end;
      try congruence; eauto. }
  destruct item_ids as [|i item_ids].
  - apply (Hfetch s1 eq_refl).
  - apply (Hfetch (Basic.mkState (Basic.sent s1)
                     (Basic.actions s1 ++ [Basic.Sleep 1])) eq_refl).
Qed.

Lemma simple_search_outcome_witness :
  Basic.simple_search limiting_server (Basic.mkState 0 [])
  = Basic.Err Basic.AttributeError
      (Basic.mkState 2
         [Basic.Post Basic.simple_query; Basic.Sleep 1;
          Basic.Get ["a"; "b"; "c"] "q"]).
Proof.
  destruct (simple_search_outcome limiting_server (Basic.mkState 0 [])
              ["a"; "b"; "c"] "q"
              (Basic.mkState 1 [Basic.Post Basic.simple_query]) eq_refl)
    as (_ & [_ Hfails] & _).
  apply Hfails. by exists 429, None.
Defined.

(** ** Actions within limits *)

Lemma emits_ret {A} P (a : A) : emits P (ret a).
Proof.
  intros w a' w' [= <- <-]. exists []. by rewrite app_nil_r.
Qed.

Lemma emits_bind {A B} P (m : M A) (k : A -> M B) :
  emits P m -> (forall a, emits P (k a)) -> emits P (bind m k).
Proof.
  intros Hm Hk w b w' Hrun. unfold bind in Hrun.
  destruct (m w) as [a w1| |] eqn:E; [|done..].
  destruct (Hm _ _ _ E) as (t1 & Ht1 & Hfs1 & HP1).
  destruct (Hk a _ _ _ Hrun) as (t2 & Ht2 & Hfs2 & HP2).
  exists (t1 ++ t2). split; [by rewrite Ht2, Ht1, app_assoc|].
  split; [by rewrite replay_app, Hfs2, Hfs1|]. by apply Forall_app.
Qed.

Lemma emits_now env P : emits P (now env).
Proof.
  intros w a w' [= <- <-]. exists []. by rewrite app_nil_r.
Qed.

Lemma emits_write_file P name f :
  P (EvWrite name f) -> emits P (write_file name f).
Proof.
  intros He w a' w' [= <- <-]. exists [EvWrite name f].
  do 2 (split; [done|]). by apply Forall_singleton.
Qed.

Lemma allowed_sleep seconds :
  seconds ∈ [2; DELAY_BETWEEN_FETCHES; DELAY_BETWEEN_SEARCHES; 60] ->
  emits allowed (sleep seconds).
Proof.
  intros Hs w a w' [= <- <-]. exists [EvSleep seconds].
  do 2 (split; [done|]). by apply Forall_singleton.
Qed.

Lemma allowed_search env fuel filters name :
  emits allowed (search_items_with_filters env fuel filters name).
Proof.
  induction fuel as [|fuel IH]; [apply emits_ret|].
  cbn [search_items_with_filters]. apply emits_bind.
  { intros w a w' [= <- <-]. exists [EvSearch filters].
    do 2 (split; [done|]). by apply Forall_singleton. }
  intros [status_code body|]; [|apply emits_ret].
  destruct (status_code =? 200); [destruct body; apply emits_ret|].
  destruct (status_code =? 429); [|apply emits_ret].
  apply emits_bind; [|done].
  apply allowed_sleep. do 3 right. by left.
Qed.

Lemma allowed_fetch env fuel item_ids query_id :
  emits allowed (fetch_items_batch env fuel item_ids query_id).
Proof.
  induction fuel as [|fuel IH]; destruct item_ids as [|i ids];
    try apply emits_ret.
  cbn [fetch_items_batch]. apply emits_bind.
  { intros w a w' [= <- <-].
    exists [EvFetch (take ITEMS_PER_FETCH (i :: ids)) query_id].
    do 2 (split; [done|]). apply Forall_singleton. cbn [allowed].
    rewrite length_take. cbn [length]. unfold ITEMS_PER_FETCH. lia. }
  intros [status_code body|]; [|apply emits_ret].
  destruct (status_code =? 200); [apply emits_ret|].
  destruct (status_code =? 429); [|apply emits_ret].
  apply emits_bind; [|done].
  apply allowed_sleep. do 3 right. by left.
Qed.

Lemma allowed_fetch_loop env fuel item_ids query_id num_batches batch_nums :
  forall all_items,
  emits allowed
    (fetch_loop env fuel item_ids query_id num_batches batch_nums all_items).
Proof.
  induction batch_nums as [|b batch_nums IH]; intros all_items;
    [apply emits_ret|].
  cbn [fetch_loop]. apply emits_bind; [apply allowed_fetch|].
  intros batch_data. apply emits_bind; [|intros _; apply IH].
  destruct (b <? num_batches - 1)%nat; [|apply emits_ret].
  apply allowed_sleep. right. by left.
Qed.

Lemma allowed_save env name all_items :
  emits allowed (save_category env name all_items) /\
  emits allowed (save_combined env name all_items).
Proof.
  destruct all_items; split; try apply emits_ret;
    (apply emits_bind; [apply emits_now|intros ts; by apply emits_write_file]).
Qed.

Lemma allowed_subdivision_loop
    (scrape : string -> Filters -> bool -> M (list ItemRecord))
    name filters ranges :
  (forall n f b, emits allowed (scrape n f b)) ->
  forall acc, emits allowed (subdivision_loop scrape name filters ranges acc).
Proof.
  intros Hscrape.
  induction ranges as [|[mn mx] ranges IH]; intros acc; [apply emits_ret|].
  cbn [subdivision_loop]. apply emits_bind; [apply Hscrape|].
  intros sub_items. apply emits_bind; [|intros _; apply IH].
  apply allowed_sleep. by left.
Qed.

Lemma allowed_scrape_category env fuel :
  (forall fuel' name filters total, fuel = S fuel' ->
     emits allowed (scrape_with_subdivision env fuel' name filters total)) ->
  forall name filters flag,
    emits allowed (scrape_category env fuel name filters flag).
Proof.
  intros Hsub name filters flag w a w'.
  rewrite scrape_category_search. revert w a w'.
  apply emits_bind; [apply allowed_search|].
  intros [[ids q] total]. destruct ids as [|i ids]; [apply emits_ret|].
  destruct (_ && _ && _).
  - destruct fuel as [|fuel']; [done|by apply Hsub].
  - apply emits_bind; [apply allowed_fetch_loop|].
    intros all_items. apply emits_bind; [apply allowed_save|].
    intros _. apply emits_ret.
Qed.

Lemma allowed_scrape env fuel :
  (forall name filters flag,
     emits allowed (scrape_category env fuel name filters flag)) /\
  (forall name filters total,
     emits allowed (scrape_with_subdivision env fuel name filters total)).
Proof.
  induction fuel as [|fuel [IHc IHs]].
  - split; [|done]. apply allowed_scrape_category. intros fuel'. done.
  - split.
    + apply allowed_scrape_category. intros fuel' name filters total [= <-].
      apply IHs.
    + intros name filters total w a w'.
      rewrite scrape_with_subdivision_unfold. revert w a w'.
      apply emits_bind; [by apply allowed_subdivision_loop|].
      intros all_items. apply emits_bind; [apply allowed_save|].
      intros _. apply emits_ret.
Qed.

Lemma allowed_process_category env fuel num_categories cat_num name filters
    st :
  emits allowed
    (process_category env fuel num_categories cat_num name filters st).
Proof.
  unfold process_category. apply emits_bind; [apply emits_now|].
  intros _. apply emits_bind; [apply allowed_scrape|].
  intros all_items.
  destruct (foldl track_item _ all_items) as [[seen_ids collected] n].
  apply emits_bind.
  { apply emits_bind; [apply emits_now|].
    intros ts. by apply emits_write_file. }
  intros _. apply emits_bind; [|intros _; apply emits_ret].
  destruct (cat_num <? num_categories)%nat; [|apply emits_ret].
  apply allowed_sleep. do 2 right. by left.
Qed.

Lemma allowed_session_loop env fuel num_categories categories :
  forall cat_num st,
  emits allowed (session_loop env fuel num_categories cat_num categories st).
Proof.
  induction categories as [|[name filters] categories IH]; intros cat_num st;
    [apply emits_ret|].
  cbn [session_loop].
  destruct (bool_decide (name ∈ completed st)); [apply IH|].
  apply emits_bind; [apply allowed_process_category|]. intros st1. apply IH.
Qed.

Lemma allowed_scrape_session env fuel session_number categories :
  emits allowed (scrape_session env fuel session_number categories).
Proof.
  unfold scrape_session. apply emits_bind; [apply emits_ret|].
  intros _. apply emits_bind.
  { intros w a w' Hload. exists []. rewrite app_nil_r.
    unfold load_progress in Hload.
    by destruct (fs_lookup PROGRESS_FILE (fs w)) as [[| | |]|];
      inversion Hload. }
  intros [C Sn]. apply emits_bind; [apply emits_now|].
  intros _. apply emits_bind; [apply allowed_session_loop|].
  intros st. apply emits_bind; [apply emits_now|]. intros _. apply emits_ret.
Qed.

(** X17. A session stays within the limits of the script.  Under a bounded
    rate limit it returns, and every fetch request it has sent carries at
    least one id and at most ten, every sleep it has taken lasts 2, 5, 10
    or 60 seconds, and every file it has written is a category document or
    the progress document in the progress file: it writes no master file
    and leaves no file that does not decode. *)
Theorem session_within_limits env K fuel session_number categories w
    loaded_completed loaded_seen
    (Hbounded : rate_limit_bounded env K) (Hfuel : (K + 2 <= fuel)%nat)
    (Hload : load_progress w = Ret (loaded_completed, loaded_seen) w) :
  exists w' t,
    scrape_session env fuel session_number categories w = Ret tt w' /\
    trace w' = trace w ++ t /\ fs w' = replay t (fs w) /\
    (forall item_ids query_id, EvFetch item_ids query_id ∈ t ->
       (1 <= length item_ids <= 10)%nat) /\
    (forall seconds, EvSleep seconds ∈ t -> seconds ∈ [2; 5; 10; 60]) /\
    (forall name f, EvWrite name f ∈ t ->
       (exists doc, f = FCategory doc) \/
       (name = PROGRESS_FILE /\ exists progress, f = FProgress progress)).
Proof.
  destruct (scrape_session_exact env K Hbounded fuel session_number
              categories w loaded_completed loaded_seen Hfuel Hload)
    as (w' & seen' & Hrun & _).
  destruct (allowed_scrape_session env fuel session_number categories
              w tt w' Hrun) as (t & Ht & Hfs & Hallowed).
  exists w', t. do 3 (split; [done|]).
  rewrite Forall_forall in Hallowed. split; [|split].
  - intros item_ids query_id Hin. exact (Hallowed _ Hin).
  - intros seconds Hin. exact (Hallowed _ Hin).
  - intros name f Hin. specialize (Hallowed _ Hin). cbn [allowed] in Hallowed.
    destruct f; try done; [right|left]; eauto.
Qed.

Lemma session_within_limits_witness :
  exists w' t,
    scrape_session busy_once_env 4 1 [("Rare_0-1c", rare_0_1)] fresh_world
    = Ret tt w' /\
    trace w' = trace fresh_world ++ t /\
    forall seconds, EvSleep seconds ∈ t -> seconds ∈ [2; 5; 10; 60].
Proof.
  destruct (session_within_limits busy_once_env 2 4 1
              [("Rare_0-1c", rare_0_1)] fresh_world ∅ ∅
              busy_once_bounded (le_n 4) eq_refl)
    as (w' & t & Hrun & Ht & _ & _ & Hsleeps & _).
  exists w', t. split; [exact Hrun|]. split; [exact Ht|exact Hsleeps].
Defined.

(** ** The master file after a session *)

Lemma fs_write_names name f d x :
  x ∈ map fst (fs_write name f d) -> x = name \/ x ∈ map fst d.
Proof.
  induction d as [|[n g] d IH]; cbn [fs_write map fst].
  - intros Hx. apply list_elem_of_singleton in Hx. by left.
  - destruct (String.eqb n name); cbn [map fst]; [by right|].
    intros Hx. apply elem_of_cons in Hx as [->|Hx]; [right; by left|].
    destruct (IH Hx) as [->|Hin]; [by left|right; by right].
Qed.

Lemma fs_write_wellformed name f d :
  (scanned name = true -> exists doc, f = FCategory doc) ->
  wellformed d -> wellformed (fs_write name f d).
Proof.
  intros Hf [Hnodup Hdocs]. split.
  - induction d as [|[n g] d IH]; cbn [fs_write map fst] in *.
    + apply NoDup_singleton.
    + apply NoDup_cons in Hnodup as [Hn Hnodup].
      apply Forall_cons in Hdocs as [_ Hdocs].
      destruct (String.eqb n name) eqn:E; cbn [map fst].
      * by apply NoDup_cons.
      * apply NoDup_cons. split; [|by apply IH].
        intros Hin. apply fs_write_names in Hin as [->|Hin]; [|done].
        by rewrite String.eqb_refl in E.
  - induction d as [|[n g] d IH]; cbn [fs_write map fst] in *.
    + by apply Forall_singleton.
    + apply NoDup_cons in Hnodup as [Hn Hnodup].
      apply Forall_cons in Hdocs as [Hg Hdocs].
      destruct (String.eqb n name) eqn:E.
      * apply String.eqb_eq in E as ->. by apply Forall_cons.
      * apply Forall_cons. split; [done|by apply IH].
Qed.

Lemma replay_wellformed t : forall d,
  Forall allowed t -> wellformed d -> wellformed (replay t d).
Proof.
  induction t as [|e t IH]; intros d Hall Hd; [done|].
  apply Forall_cons in Hall as [He Hall].
  destruct e as [| | |n g]; try (by apply IH).
  change (wellformed (replay t (fs_write n g d))). apply IH; [done|].
  apply fs_write_wellformed; [|done].
  cbn [allowed] in He. destruct g; try done; [|by eexists].
  by subst n.
Qed.

Lemma scanned_items_elem item d :
  item ∈ scanned_items d ->
  exists n f, (n, f) ∈ d /\ scanned n = true /\ item ∈ data_items f.
Proof.
  induction d as [|[n f] d IH]; cbn [scanned_items].
  - intros Hin. by apply elem_of_nil in Hin.
  - destruct (scanned n) eqn:Hs.
    + intros Hin. apply elem_of_app in Hin as [Hin|Hin].
      * exists n, f. split; [by left|done].
      * destruct (IH Hin) as (n' & f' & Hin' & Hs' & Hitem).
        exists n', f'. split; [by right|done].
    + intros Hin. destruct (IH Hin) as (n' & f' & Hin' & Hs' & Hitem).
      exists n', f'. split; [by right|done].
Qed.

Lemma fs_lookup_nodup n f d :
  NoDup (map fst d) -> (n, f) ∈ d -> fs_lookup n d = Some f.
Proof.
  induction d as [|[m g] d IH]; cbn [map fst fs_lookup].
  - intros _ Hin. by apply elem_of_nil in Hin.
  - intros Hnodup Hin. apply NoDup_cons in Hnodup as [Hm Hnodup].
    apply elem_of_cons in Hin as [[= -> ->]|Hin].
    + by rewrite String.eqb_refl.
    + destruct (String.eqb m n) eqn:E; [|by apply IH].
      apply String.eqb_eq in E as ->. exfalso. apply Hm.
      apply list_elem_of_fmap. by exists (n, f).
Qed.

(** On a directory whose category files are covered by [seen_ids], the
    aggregator returns and keeps only ids of [seen_ids]. *)
Lemma master_ids_are_seen env w seen_ids :
  files_seen (fs w) seen_ids -> wellformed (fs w) ->
  exists w1 doc,
    create_master_file env w = Ret tt w1 /\
    trace w1 = trace w ++ [EvWrite (master_name (fs w)) (FMaster doc)] /\
    id_set (master_items doc) ⊆ seen_ids /\
    (total_unique_items doc <= size seen_ids)%nat.
Proof.
  intros Hseen [Hnodup Hdocs].
  destruct (create_master_file_runs env w) as [w1 Hrun].
  { apply master_loop_scanned. eapply Forall_impl; [exact Hdocs|].
    intros nf Hnf Hs. destruct (Hnf Hs) as [doc ->]. done. }
  destruct (create_master_file_ret env w w1 Hrun) as (_ & _ & Ht).
  do 2 eexists. split; [exact Hrun|]. split; [exact Ht|].
  cbn [master_items total_unique_items].
  destruct (master_of_ids (fs w)) as [Hids Hlen].
  assert (id_set (scanned_items (fs w)) ⊆ seen_ids) as Hsub.
  { intros i Hi. apply elem_of_list_to_set in Hi.
    apply list_elem_of_omap in Hi as (item & Hitem & Hid).
    destruct (item_id item) as [j|] eqn:Hj; [|done].
    destruct (truthy j) eqn:Htj; [|done]. injection Hid as ->.
    apply scanned_items_elem in Hitem as (n & f & Hin & Hs & Hitem).
    rewrite Forall_forall in Hdocs.
    destruct (Hdocs _ Hin Hs) as [doc Hdoc]. cbn [snd] in Hdoc. subst f.
    apply (Hseen n doc item i); try done. by apply fs_lookup_nodup. }
  split; [by rewrite Hids|]. rewrite Hlen. by apply subseteq_size.
Qed.

(** X18. Session and aggregator together: start from a directory without
    duplicate names whose scanned files are category documents covered by
    the loaded seen ids, run a session under a bounded rate limit, then
    aggregate.  Both return, and every id of the master file is one of the
    seen ids the progress store then holds; the master file counts no more
    items than the store has seen ids. *)
Theorem master_after_session env env' K fuel session_number categories w
    loaded_completed loaded_seen
    (Hbounded : rate_limit_bounded env K) (Hfuel : (K + 2 <= fuel)%nat)
    (Hload : load_progress w = Ret (loaded_completed, loaded_seen) w)
    (Hfiles : files_seen (fs w) loaded_seen)
    (Hdir : wellformed (fs w)) :
  exists w' completed' seen' w1 doc,
    scrape_session env fuel session_number categories w = Ret tt w' /\
    load_progress w' = Ret (completed', seen') w' /\
    create_master_file env' w' = Ret tt w1 /\
    trace w1 = trace w' ++ [EvWrite (master_name (fs w')) (FMaster doc)] /\
    id_set (master_items doc) ⊆ seen' /\
    (total_unique_items doc <= size seen')%nat.
Proof.
  destruct (session_loop_keeps_sync env K Hbounded fuel (length categories)
              categories 1%nat
              (mkSession loaded_completed loaded_seen []) (tick w) Hfuel)
    as (st' & w0 & Hloop & [Hload' Hfiles'] & _).
  { split; [|done]. by apply (load_progress_ext w). }
  assert (scrape_session env fuel session_number categories w
          = Ret tt (tick w0)) as Hrun.
  { unfold scrape_session, create_output_directory.
    unfold bind at 1. unfold ret at 1. unfold bind at 1. rewrite Hload.
    unfold bind at 1. unfold now at 1. unfold bind at 1. rewrite Hloop.
    reflexivity. }
  destruct (allowed_scrape_session env fuel session_number categories
              w tt (tick w0) Hrun) as (t & _ & Hfs & Hallowed).
  assert (wellformed (fs (tick w0))) as Hdir'
    by (rewrite Hfs; by apply replay_wellformed).
  destruct (master_ids_are_seen env' (tick w0) (seen st') Hfiles' Hdir')
    as (w1 & doc & Hrun1 & Ht1 & Hids & Hcount).
  exists (tick w0), (completed st'), (seen st'), w1, doc.
  split; [done|]. split; [by apply (load_progress_ext w0)|]. done.
Qed.

Lemma master_after_session_witness :
  exists w' completed' seen' w1 doc,
    scrape_session busy_once_env 4 1 [("Rare_0-1c", rare_0_1)] fresh_world
    = Ret tt w' /\
    load_progress w' = Ret (completed', seen') w' /\
    create_master_file nothing_env w' = Ret tt w1 /\
    id_set (master_items doc) ⊆ seen' /\
    (total_unique_items doc <= size seen')%nat.
Proof.
  assert (files_seen (fs fresh_world) ∅) as Hfiles
    by (intros name doc item i Hl; discriminate Hl).
  assert (wellformed (fs fresh_world)) as Hdir
    by (split; [apply NoDup_nil_2|apply Forall_nil_2]).
  destruct (master_after_session busy_once_env nothing_env 2 4 1
              [("Rare_0-1c", rare_0_1)] fresh_world ∅ ∅
              busy_once_bounded (le_n 4) eq_refl Hfiles Hdir)
    as (w' & C' & S' & w1 & doc & Hrun & Hload & Hrun1 & _ & Hids & Hcount).
  exists w', C', S', w1, doc. split; [exact Hrun|]. split; [exact Hload|].
  split; [exact Hrun1|]. split; [exact Hids|exact Hcount].
Defined.
